(** * eduml decision tree: the builder ([fit], [_split]) and the predictor

    A shallow embedding of [src/eduml/tree/_decision_tree.py].  The
    [DecisionTree] object is a record that is threaded through the calls
    that mutate it; every Python exception that the builder or the
    predictor can raise is a value of [exn]; the recursion of [_split] is
    bounded by a fuel argument standing for the interpreter's recursion
    limit. *)

From stdpp Require Import base list strings pretty sorting gmap.
From Stdlib Require Import ZArith QArith.

Local Open Scope Z_scope.

(** ** Exceptions and the error monad *)

Inductive exn : Set :=
| RecursionError   (* the recursion limit (fuel) is exhausted *)
| IndexError       (* an index outside an array *)
| AttributeError   (* an attribute of None *)
| TypeError        (* subscripting or unpacking None *)
| InvalidState     (* the decision of a node that has no rule *)
| ValueError.      (* raised by the validation helpers *)

Inductive result (A : Type) : Type :=
| Ok (a : A)
| Raise (e : exn).
Arguments Ok {A} a.
Arguments Raise {A} e.

Definition bind {A B : Type} (m : result A) (f : A -> result B) : result B :=
  match m with
  | Ok a => f a
  | Raise e => Raise e
  end.

Notation "'let!' x ':=' m 'in' k" := (bind m (fun x => k))
  (at level 10, x pattern, m at level 100, k at level 200).

(** [for x in xs: out.append(f(x))], stopping at the first exception. *)
Fixpoint collect {A B : Type} (f : A -> result B) (xs : list A) : result (list B) :=
  match xs with
  | [] => Ok []
  | x :: xs' => let! b := f x in let! bs := collect f xs' in Ok (b :: bs)
  end.

(** [arr[i]] for a non-negative index. *)
Definition item {A : Type} (arr : list A) (i : nat) : result A :=
  match arr !! i with
  | Some a => Ok a
  | None => Raise IndexError
  end.

(** [arr[idx]] where [idx] is a sequence of indices (numpy's integer
    array indexing); [arr] is [None] before the first [fit]. *)
Definition take {A : Type} (arr : option (list A)) (idx : list nat) : result (list A) :=
  match arr with
  | Some a => collect (item a) idx
  | None => Raise TypeError
  end.

(** [sum(train_decisions)]: the number of [True] entries. *)
Definition sum (ds : list bool) : Z :=
  fold_right (fun (b : bool) acc => (if b then 1 else 0) + acc) 0 ds.

(** ** Limits: an integer or [math.inf] *)

Inductive limit : Set :=
| inf
| fin (z : Z).

Definition lt_limit (a : Z) (m : limit) : bool :=
  match m with
  | inf => true
  | fin z => a <? z
  end.

Definition limit_of (o : option Z) : limit :=
  match o with
  | None => inf
  | Some z => fin z
  end.

(** A call that returns, or fails only by exceeding the recursion limit. *)
Definition returns_or_overflows {A : Type} (r : result A) : Prop :=
  (exists a, r = Ok a) \/ r = Raise RecursionError.

Section Tree.

(** Feature rows, labels, thresholds, impurity scores and predictions are
    numpy values whose representation the builder never inspects. *)
Context {row label value score pred : Type}.

(** ** Node

    Modelled from the spec: the class [Node] of [eduml/tree/_node.py] is
    not among the sources.  Its attributes are those that
    [_decision_tree.py] reads and writes; an attribute that the
    constructor call does not set starts as [None]. *)
Inductive Node : Type := mkNode {
  size : Z;
  values : list nat;
  depth : Z;
  type : option string;
  loss : option score;
  p : option nat;
  val : option value;
  split : option (Z * Z);
  prediction : option pred;
  left : option Node;
  right : option Node
}.

(** [Node(size=.., values=.., depth=.., _type=..)] *)
Definition new_Node (sz : Z) (vs : list nat) (d : Z) (ty : option string) : Node :=
  mkNode sz vs d ty None None None None None None None.

(** Modelled from the spec: [is_leaf()] is true iff the state is [leaf]. *)
Definition is_leaf (nd : Node) : bool :=
  match type nd with
  | Some t => String.eqb t "leaf"
  | None => false
  end.

(** ** DecisionTree *)
Record DecisionTree : Type := mkTree {
  X : option (list row);
  y : option (list label);
  n : option nat;
  root : option Node;
  num_nodes : Z;
  num_leaf_nodes : Z;
  max_depth : limit;
  max_nodes : limit;
  max_leaf_nodes : limit;
  min_nodes_per_leaf : Z
}.

(** [__init__]: a limit given as [None] becomes [math.inf]. *)
Definition __init__ (max_depth max_nodes max_leaf_nodes : option Z)
    (min_nodes_per_leaf : Z) : DecisionTree :=
  mkTree None None None None 0 0
    (limit_of max_depth) (limit_of max_nodes) (limit_of max_leaf_nodes)
    min_nodes_per_leaf.

(** ** The collaborators

    The validation helpers of [eduml/utils], the comparison inside
    [Node.decision] and the methods that the subclasses
    [DecisionTreeClassifier] and [DecisionTreeRegressor] supply
    ([criterion], [_best_split], [_evaluate_leaf]) are not among the
    sources; the builder is parametrised by them. *)
Class Collaborators : Type := {
  validate_feature_matrix : list row -> result (list row);
  validate_target_vector : list label -> result (list label);
  check_consistent_length : list row -> list label -> result unit;
  (** the routing test of a split rule [(p, val)] on a feature row *)
  decide_rule : nat -> value -> row -> bool;
  criterion : list label -> score;
  (** [score == 0] *)
  is_zero : score -> bool;
  (** the split selector: [(loss, best_pair)], [best_pair] possibly [None] *)
  _best_split : list row -> list label -> score * option (nat * value);
  _evaluate_leaf : DecisionTree -> Node -> pred
}.

Context `{C : Collaborators}.

(** Modelled from the spec: [Node.decision] evaluates the stored
    (feature index, threshold) rule against the row; it is defined only
    on a node that has a rule. *)
Definition decision (nd : Node) (x : row) : result bool :=
  match p nd, val nd with
  | Some p', Some v => Ok (decide_rule p' v x)
  | _, _ => Raise InvalidState
  end.

(** *** Attribute assignments *)

Definition set_rule (nd : Node) (l : score) (p' : nat) (v : value) : Node :=
  mkNode (size nd) (values nd) (depth nd) (type nd) (Some l) (Some p') (Some v)
    (split nd) (prediction nd) (left nd) (right nd).

Definition set_split (nd : Node) (s : Z * Z) : Node :=
  mkNode (size nd) (values nd) (depth nd) (type nd) (loss nd) (p nd) (val nd)
    (Some s) (prediction nd) (left nd) (right nd).

Definition set_type (nd : Node) (ty : string) : Node :=
  mkNode (size nd) (values nd) (depth nd) (Some ty) (loss nd) (p nd) (val nd)
    (split nd) (prediction nd) (left nd) (right nd).

Definition set_prediction (nd : Node) (pr : pred) : Node :=
  mkNode (size nd) (values nd) (depth nd) (type nd) (loss nd) (p nd) (val nd)
    (split nd) (Some pr) (left nd) (right nd).

Definition set_left (nd : Node) (c : Node) : Node :=
  mkNode (size nd) (values nd) (depth nd) (type nd) (loss nd) (p nd) (val nd)
    (split nd) (prediction nd) (Some c) (right nd).

Definition set_right (nd : Node) (c : Node) : Node :=
  mkNode (size nd) (values nd) (depth nd) (type nd) (loss nd) (p nd) (val nd)
    (split nd) (prediction nd) (left nd) (Some c).

Definition set_counters (self : DecisionTree) (nn nl : Z) : DecisionTree :=
  mkTree (X self) (y self) (n self) (root self) nn nl
    (max_depth self) (max_nodes self) (max_leaf_nodes self)
    (min_nodes_per_leaf self).

(** [self.num_nodes += 1] *)
Definition incr_num_nodes (self : DecisionTree) : DecisionTree :=
  set_counters self (num_nodes self + 1) (num_leaf_nodes self).

(** [self.num_leaf_nodes += 1] *)
Definition incr_num_leaf_nodes (self : DecisionTree) : DecisionTree :=
  set_counters self (num_nodes self) (num_leaf_nodes self + 1).

Definition set_root (self : DecisionTree) (r : Node) : DecisionTree :=
  mkTree (X self) (y self) (n self) (Some r) (num_nodes self)
    (num_leaf_nodes self) (max_depth self) (max_nodes self)
    (max_leaf_nodes self) (min_nodes_per_leaf self).

(** ** The builder *)

(** [_is_pure]: [self.criterion(self.y[node.values]) == 0] *)
Definition _is_pure (self : DecisionTree) (node : Node) : result bool :=
  let! ys := take (y self) (values node) in
  Ok (is_zero (criterion ys)).

Definition _check_criterion (self : DecisionTree) (node : Node) : bool :=
  let depth_not_reached := lt_limit (depth node) (max_depth self) in
  let max_nodes_not_reached := lt_limit (num_nodes self) (max_nodes self) in
  let max_leaf_nodes_not_reached :=
    lt_limit (num_leaf_nodes self) (max_leaf_nodes self) in
  let can_split := 1 <? size node in
  depth_not_reached && max_nodes_not_reached &&
  max_leaf_nodes_not_reached && can_split.

(** The three statements that make a node a leaf:
    [type = 'leaf'], [prediction = self._evaluate_leaf(node)],
    [self.num_leaf_nodes += 1]. *)
Definition make_leaf (self : DecisionTree) (node : Node) : DecisionTree * Node :=
  let node := set_type node "leaf" in
  let node := set_prediction node (_evaluate_leaf self node) in
  (incr_num_leaf_nodes self, node).

(** The loop that distributes [curr.values] over [next_values[0]]
    (decision false) and [next_values[1]] (decision true). *)
Fixpoint next_values (self : DecisionTree) (curr : Node) (idx : list nat)
    : result (list nat * list nat) :=
  match idx with
  | [] => Ok ([], [])
  | i :: idx' =>
      let! x := (match X self with Some a => item a i | None => Raise TypeError end) in
      let! d := decision curr x in
      let! (l, r) := next_values self curr idx' in
      Ok (if d then (l, i :: r) else (i :: l, r))
  end.

(** What [_split] does with a freshly created child: recurse into it
    when it is impure and the stopping criterion allows, seal it
    otherwise. *)
Definition grow (rec : DecisionTree -> Node -> result (DecisionTree * Node))
    (self : DecisionTree) (child : Node) : result (DecisionTree * Node) :=
  let! pure := _is_pure self child in
  if negb pure && _check_criterion self child
  then rec self child
  else Ok (make_leaf self child).

(** The body of [_split], with the recursive calls abstracted as [rec]. *)
Definition _split_body (rec : DecisionTree -> Node -> result (DecisionTree * Node))
    (self : DecisionTree) (curr : Node) : result (DecisionTree * Node) :=
  let! Xc := take (X self) (values curr) in
  let! yc := take (y self) (values curr) in
  match snd (_best_split Xc yc) with
  | None => Ok (make_leaf self curr)
  | Some _ =>
      let '(loss', best_pair) := _best_split Xc yc in
      match best_pair with
      | None => Raise TypeError
      | Some (p', val') =>
          let curr := set_rule curr loss' p' val' in
          let! train_decisions := collect (decision curr) Xc in
          let curr :=
            set_split curr (size curr - sum train_decisions, sum train_decisions) in
          let! (nv0, nv1) := next_values self curr (values curr) in
          let lsize := match split curr with Some s => fst s | None => 0 end in
          let rsize := match split curr with Some s => snd s | None => 0 end in
          let lchild := new_Node lsize nv0 (depth curr + 1) None in
          let self := incr_num_nodes self in
          let! (self, lchild) := grow rec self lchild in
          let curr := set_left curr lchild in
          let rchild := new_Node rsize nv1 (depth curr + 1) None in
          let self := incr_num_nodes self in
          let! (self, rchild) := grow rec self rchild in
          let curr := set_right curr rchild in
          Ok (self, curr)
      end
  end.

Fixpoint _split (fuel : nat) (self : DecisionTree) (curr : Node)
    : result (DecisionTree * Node) :=
  match fuel with
  | O => Raise RecursionError
  | S fuel' => _split_body (_split fuel') self curr
  end.

Definition fit (fuel : nat) (self : DecisionTree) (X0 : list row) (y0 : list label)
    : result DecisionTree :=
  let! Xv := validate_feature_matrix X0 in
  let! yv := validate_target_vector y0 in
  let! _ := check_consistent_length X0 y0 in
  let n' := length Xv in
  let self := mkTree (Some Xv) (Some yv) (Some n') (root self) (num_nodes self)
                (num_leaf_nodes self) (max_depth self) (max_nodes self)
                (max_leaf_nodes self) (min_nodes_per_leaf self) in
  let r := new_Node (Z.of_nat n') (seq 0 n') 1 (Some "root") in
  let self := set_root self r in
  let self := incr_num_nodes self in
  let! (self, r) := _split fuel self r in
  Ok (set_root self r).

(** ** The predictor *)

(** The [while not curr.is_leaf()] walk from a node that is present. *)
Fixpoint walk (curr : Node) (x : row) : result (option pred) :=
  match curr with
  | mkNode _ _ _ _ _ _ _ _ pr l r =>
      if is_leaf curr then Ok pr
      else
        let! d := decision curr x in
        match (if d then r else l) with
        | Some c => walk c x
        | None => Raise AttributeError
        end
  end.

(** One iteration of [for x in X]: [curr = self.root] may be [None]. *)
Definition predict_row (self : DecisionTree) (x : row) : result (option pred) :=
  match root self with
  | Some r => walk r x
  | None => Raise AttributeError
  end.

Definition predict (self : DecisionTree) (X0 : list row) : result (list (option pred)) :=
  let! Xv := validate_feature_matrix X0 in
  collect (predict_row self) Xv.

(** ** Traversals of a built tree *)

(** The nodes reachable from [nd], [nd] first (pre-order). *)
Fixpoint nodes (nd : Node) : list Node :=
  match nd with
  | mkNode _ _ _ _ _ _ _ _ _ l r =>
      nd :: match l with Some c => nodes c | None => [] end
         ++ match r with Some c => nodes c | None => [] end
  end.

(** A manual count of the nodes reachable from [nd]. *)
Fixpoint count_nodes (nd : Node) : Z :=
  match nd with
  | mkNode _ _ _ _ _ _ _ _ _ l r =>
      1 + match l with Some c => count_nodes c | None => 0 end
        + match r with Some c => count_nodes c | None => 0 end
  end.

(** A manual count of the leaves reachable from [nd]. *)
Fixpoint count_leaves (nd : Node) : Z :=
  match nd with
  | mkNode _ _ _ _ _ _ _ _ _ l r =>
      (if is_leaf nd then 1 else 0)
        + match l with Some c => count_leaves c | None => 0 end
        + match r with Some c => count_leaves c | None => 0 end
  end.

(** The number of levels below and including [nd]. *)
Fixpoint height (nd : Node) : Z :=
  match nd with
  | mkNode _ _ _ _ _ _ _ _ _ l r =>
      1 + Z.max match l with Some c => height c | None => 0 end
                match r with Some c => height c | None => 0 end
  end.

(** The side to which the rule stored on [nd] sends training sample [i]:
    [Some false] is left, [Some true] is right, [None] when the row or
    the rule is missing. *)
Definition side (self : DecisionTree) (nd : Node) (i : nat) : option bool :=
  match X self with
  | Some a =>
      match a !! i with
      | Some x =>
          match decision nd x with
          | Ok d => Some d
          | Raise _ => None
          end
      | None => None
      end
  | None => None
  end.

(** Induction over the nodes below a node. *)
Definition on_child (P : Node -> Prop) (o : option Node) : Prop :=
  match o with
  | Some c => P c
  | None => True
  end.

Fixpoint Node_induction (P : Node -> Prop)
    (H : forall nd, on_child P (left nd) -> on_child P (right nd) -> P nd)
    (nd : Node) {struct nd} : P nd :=
  match nd with
  | mkNode sz vs d ty lo p' v sp pr l r =>
      H (mkNode sz vs d ty lo p' v sp pr l r)
        (match l return on_child P l with
         | Some c => Node_induction P H c
         | None => I
         end)
        (match r return on_child P r with
         | Some c => Node_induction P H c
         | None => I
         end)
  end.

(** A node as the constructor call of the builder leaves it: no
    children yet and not marked as a leaf. *)
Definition fresh (nd : Node) : Prop :=
  left nd = None /\ right nd = None /\ is_leaf nd = false.

(** ** Predicates on trees and on the builder's state *)

(** What [_split] leaves untouched on the tree object. *)
Definition same_setup (self self' : DecisionTree) : Prop :=
  X self' = X self /\ y self' = y self /\ n self' = n self /\
  root self' = root self /\ max_depth self' = max_depth self /\
  max_nodes self' = max_nodes self /\
  max_leaf_nodes self' = max_leaf_nodes self /\
  min_nodes_per_leaf self' = min_nodes_per_leaf self.

(** The state in which [fit] calls [_split], and the root it passes. *)
Definition new_root (n' : nat) : Node :=
  new_Node (Z.of_nat n') (seq 0 n') 1 (Some "root").

Definition start (self : DecisionTree) (Xv : list row) (yv : list label) : DecisionTree :=
  mkTree (Some Xv) (Some yv) (Some (length Xv)) (Some (new_root (length Xv)))
    (num_nodes self + 1) (num_leaf_nodes self) (max_depth self) (max_nodes self)
    (max_leaf_nodes self) (min_nodes_per_leaf self).

(** The left child holds, in order, the indices that the rule sends
    left, the right child those that it sends right. *)
Definition partitions (self : DecisionTree) (nd lc rc : Node) : Prop :=
  values lc = filter (fun i => side self nd i = Some false) (values nd) /\
  values rc = filter (fun i => side self nd i = Some true) (values nd) /\
  Forall (fun i => is_Some (side self nd i)) (values nd).

(** The depths of the nodes that one call of [_split] creates. *)
Definition depths_within (lo hi : Z) (nd : Node) : Prop :=
  lo <= depth nd <= hi /\
  forall c, left nd = Some c \/ right nd = Some c -> depth c = depth nd + 1.

(** A child as [_split] leaves it when it does not recurse into it. *)
Definition sealed (nd : Node) : Prop :=
  is_leaf nd = true /\ left nd = None /\ right nd = None.

Definition sized (nd : Node) : Prop :=
  size nd = Z.of_nat (length (values nd)) /\
  forall c, left nd = Some c \/ right nd = Some c -> sealed c \/ 1 < size c.

(** Modelled from the spec: the Split Selector ([_best_split], not in
    the source) returns a pair only when the split is viable, that is
    when it produces two non-empty children, and signals that no split
    exists otherwise: every rule it returns sends at least one of the
    rows it was given to each side. *)
Definition separating : Prop :=
  forall Xc yc lo pv v,
    _best_split Xc yc = (lo, Some (pv, v)) ->
    (exists x, x ∈ Xc /\ decide_rule pv v x = true) /\
    (exists x, x ∈ Xc /\ decide_rule pv v x = false).

(** What bounds the recursion below a node: the number of its samples
    when the selector is separating, the levels that are left when a
    maximum depth is configured. *)
Definition bounded_by (self : DecisionTree) (curr : Node) (fuel : nat) : Prop :=
  (separating /\ (length (values curr) < fuel)%nat) \/
  (exists D, max_depth self = fin D /\ (Z.to_nat (D - depth curr) < fuel)%nat).

(** The leaves reachable from [nd], in pre-order. *)
Definition leaves (nd : Node) : list Node :=
  filter (fun c => is_leaf c = true) (nodes nd).

(** [__len__] *)
Definition __len__ (self : DecisionTree) : Z := num_nodes self.

(** The two shapes of a node in a finished tree: a leaf, with a
    prediction and no children, or a split node, with a rule, the sizes
    of the two sides and both children. *)
Definition leaf_shape (nd : Node) : Prop :=
  is_leaf nd = true /\ left nd = None /\ right nd = None /\
  is_Some (prediction nd).

Definition split_shape (nd : Node) : Prop :=
  is_leaf nd = false /\ prediction nd = None /\
  is_Some (loss nd) /\ is_Some (p nd) /\ is_Some (val nd) /\
  exists lc rc, left nd = Some lc /\ right nd = Some rc /\
    split nd = Some (size lc, size rc) /\ size nd = size lc + size rc.

Definition shaped (nd : Node) : Prop := leaf_shape nd \/ split_shape nd.

(** Every child is one level below its parent. *)
Definition child_depths (nd : Node) : Prop :=
  forall c, left nd = Some c \/ right nd = Some c -> depth c = depth nd + 1.

(** The leaf evaluation reads the training data and the node, nothing
    else of the tree object. *)
Definition leaf_from_data : Prop :=
  forall (s1 s2 : DecisionTree) (nd : Node),
    X s1 = X s2 -> y s1 = y s2 -> _evaluate_leaf s1 nd = _evaluate_leaf s2 nd.

(** Two tree objects with the same training data, limits and counters;
    they may differ in [min_nodes_per_leaf], [n] and [root]. *)
Definition same_limits_and_counters (s1 s2 : DecisionTree) : Prop :=
  X s1 = X s2 /\ y s1 = y s2 /\ max_depth s1 = max_depth s2 /\
  max_nodes s1 = max_nodes s2 /\ max_leaf_nodes s1 = max_leaf_nodes s2 /\
  num_nodes s1 = num_nodes s2 /\ num_leaf_nodes s1 = num_leaf_nodes s2.

(** Two tree objects with the same training data and maximum depth and
    no limit on the nodes or the leaves; the counters may differ. *)
Definition both_unlimited (s1 s2 : DecisionTree) : Prop :=
  X s1 = X s2 /\ y s1 = y s2 /\ max_depth s1 = max_depth s2 /\
  max_nodes s1 = inf /\ max_nodes s2 = inf /\
  max_leaf_nodes s1 = inf /\ max_leaf_nodes s2 = inf.

(** The selector reports no split on the samples of [nd]. *)
Definition no_split_found (self : DecisionTree) (nd : Node) : Prop :=
  exists Xc yc,
    take (X self) (values nd) = Ok Xc /\ take (y self) (values nd) = Ok yc /\
    snd (_best_split Xc yc) = None.

(** [nd] stores the loss and the rule that the selector returns on the
    samples of [nd]. *)
Definition rule_found (self : DecisionTree) (nd : Node) : Prop :=
  exists Xc yc lo pv v,
    take (X self) (values nd) = Ok Xc /\ take (y self) (values nd) = Ok yc /\
    _best_split Xc yc = (lo, Some (pv, v)) /\
    loss nd = Some lo /\ p nd = Some pv /\ val nd = Some v.

(** Why a node is a leaf, and what a node that is not a leaf stores. *)
Definition justified (self : DecisionTree) (nd : Node) : Prop :=
  (is_leaf nd = true ->
     no_split_found self nd \/ _is_pure self nd = Ok true \/
     exists s, same_setup self s /\ _check_criterion s nd = false) /\
  (is_leaf nd = false -> rule_found self nd).

(** A child that is not a leaf was impure and passed the stopping
    criterion in some state of the counters. *)
Definition children_checked (self : DecisionTree) (nd : Node) : Prop :=
  forall c, left nd = Some c \/ right nd = Some c -> is_leaf c = false ->
    _is_pure self c = Ok false /\
    exists s, same_setup self s /\ _check_criterion s c = true.

(** ** The dump of the tree ([__str__]) *)

Definition newline : string := String (Ascii.ascii_of_nat 10) "".

(** [q.pop()]: the last element of the list, and the list without it. *)
Definition pop {A : Type} (q : list A) : option (list A * A) :=
  match reverse q with
  | [] => None
  | x :: r => Some (reverse r, x)
  end.

(** [if c != None: q.insert(0, c)] *)
Definition insert_front (o : option Node) (q : list Node) : list Node :=
  match o with
  | Some c => c :: q
  | None => q
  end.

(** What one iteration of the loop appends for the node [curr]: the
    header of a new level when [curr] is deeper than the last header,
    then the node's own line.  [str] is [Node.__str__], which is in
    [_node.py] and not among the sources. *)
Definition print_node (str : Node -> string) (st : Z * string) (curr : Node)
    : Z * string :=
  let '(d, s) := st in
  let '(d, s) :=
    if d <? depth curr
    then (depth curr,
          s +:+ newline +:+ "Current Depth: " +:+ pretty (depth curr)
            +:+ "===============" +:+ newline)
    else (d, s) in
  (d, s +:+ str curr +:+ newline).

(** The loop [while q != []], for at most [steps] iterations. *)
Fixpoint dump (str : Node -> string) (steps : nat) (q : list Node)
    (st : Z * string) : Z * string :=
  match steps with
  | O => st
  | S k =>
      match pop q with
      | None => st
      | Some (q', curr) =>
          dump str k
            (insert_front (right curr) (insert_front (left curr) q'))
            (print_node str st curr)
      end
  end.

(** [__str__].  Every iteration removes one node from the queue and
    inserts only its children, so the loop ends after as many
    iterations as there are nodes reachable from the root; that number
    bounds the steps. *)
Definition __str__ (str : Node -> string) (self : DecisionTree) : result string :=
  if 0 <? num_nodes self then
    match root self with
    | Some r => Ok (dump str (length (nodes r)) [r] (0, "")).2
    | None => Raise AttributeError
    end
  else Ok "Decision Tree is not fitted".

(** The text for a sequence of nodes printed one after the other. *)
Definition render (str : Node -> string) (order : list Node) : string :=
  (fold_left (print_node str) order (0, "")).2.

(** The nodes in the order in which the loop of [__str__] takes them
    from the queue. *)
Fixpoint visit (steps : nat) (q : list Node) : list Node :=
  match steps with
  | O => []
  | S k =>
      match pop q with
      | None => []
      | Some (q', curr) =>
          curr :: visit k (insert_front (right curr) (insert_front (left curr) q'))
      end
  end.

(** [a] is not deeper than [b]. *)
Definition shallower (a b : Node) : Prop := depth a <= depth b.

(** [nd] as it is when [_evaluate_leaf] is called on it: marked as a
    leaf, the prediction not yet assigned. *)
Definition without_prediction (nd : Node) : Node :=
  mkNode (size nd) (values nd) (depth nd) (type nd) (loss nd) (p nd) (val nd)
    (split nd) None (left nd) (right nd).

End Tree.

Arguments Node : clear implicits.
Arguments DecisionTree : clear implicits.
Arguments Collaborators : clear implicits.

(** ** The label maps of the margin classifiers

    [HardMarginSVC] and [SoftMarginSVC] ([eduml/svm]) translate the
    class labels of the training targets to -1 and 1 before the
    optimisation and back in [predict].  The optimisation itself is
    floating-point code; of [predict] the sign tests
    [self.predict_val(X) > 0] enter as a list of booleans.  Labels are
    integers; a dictionary is a finite map, and a missing key
    ([KeyError]) is [None]. *)
Module SVC.

(** [np.array(y)] holds the integers of [y] themselves, as int64, when
    every one of them fits in 64 bits; a list with larger integers is
    stored with another element type, which the label maps then see
    instead of the integers. *)
Definition int64 (ys : list Z) : Prop :=
  Forall (fun y => - 2 ^ 63 <= y < 2 ^ 63) ys.

(** [np.unique]: the distinct values in increasing order. *)
Fixpoint insert_sorted (z : Z) (l : list Z) : list Z :=
  match l with
  | [] => [z]
  | x :: l' =>
      if z <? x then z :: l
      else if z =? x then l
      else x :: insert_sorted z l'
  end.

Definition unique (ys : list Z) : list Z := foldr insert_sorted [] ys.

(** A dictionary comprehension: later pairs overwrite earlier ones. *)
Definition dict (kvs : list (Z * Z)) : gmap Z Z :=
  fold_left (fun m kv => <[kv.1 := kv.2]> m) kvs ∅.

(** [{x:y for x, y in zip([-1, 1], np.unique(self.y))}] *)
Definition map_orig (ys : list Z) : gmap Z Z :=
  dict (zip [-1; 1] (unique ys)).

(** [{y:x for x, y in zip([-1, 1], np.unique(self.y))}] *)
Definition map_new (ys : list Z) : gmap Z Z :=
  dict ((fun xy : Z * Z => (xy.2, xy.1)) <$> zip [-1; 1] (unique ys)).

(** [np.array([self.map_new[i] for i in self.y])] *)
Definition encode (ys : list Z) : option (list Z) :=
  mapM (fun i => map_new ys !! i) ys.

(** [np.where(self.predict_val(X) > 0, self.map_orig[1], self.map_orig[-1])],
    given the outcomes of the sign tests. *)
Definition predict (orig : gmap Z Z) (positive : list bool) : option (list Z) :=
  hi ← orig !! 1;
  lo ← orig !! (-1);
  Some ((fun b : bool => if b then hi else lo) <$> positive).

End SVC.

(** ** Two concrete estimators

    Feature rows are lists of rationals, labels and predictions are
    integers.  A rule [(p, val)] sends a row to the right when its
    feature [p] is greater than [val]. *)

Definition frow : Type := list Q.

Fixpoint all_equal (ys : list Z) : bool :=
  match ys with
  | a :: ((b :: _) as t) => (a =? b) && all_equal t
  | _ => true
  end.

(** The midpoint, on feature 0, between the first two consecutive rows
    whose labels differ. *)
Fixpoint boundary (Xc : list frow) (yc : list Z) : option Q :=
  match Xc, yc with
  | x1 :: ((x2 :: _) as Xt), y1 :: ((y2 :: _) as yt) =>
      if y1 =? y2 then boundary Xt yt
      else Some (Qred ((nth 0 x1 0 + nth 0 x2 0) / 2)%Q)
  | _, _ => None
  end.

Definition consistent (Xs : list frow) (ys : list Z) : result unit :=
  if (length Xs =? length ys)%nat then Ok tt else Raise ValueError.

Definition first_label (self : DecisionTree frow Z Q Q Z) (nd : Node Q Q Z) : Z :=
  match take (y self) (values nd) with
  | Ok (l :: _) => l
  | _ => 0
  end.

(** The routing test: feature [p'] of the row is greater than [v]. *)
Definition greater (p' : nat) (v : Q) (x : frow) : bool :=
  negb (Qle_bool (nth p' x 0%Q) v).

(** The threshold [v] on feature 0 leaves a row on each side. *)
Definition both_sides (v : Q) (Xc : list frow) : bool :=
  existsb (greater 0 v) Xc && existsb (fun x => negb (greater 0 v x)) Xc.

(** A selector that proposes the midpoint where the labels first change,
    and reports no split when there is none or when the midpoint would
    leave one side empty. *)
Definition midpoint : Collaborators frow Z Q Q Z := {|
  validate_feature_matrix := Ok;
  validate_target_vector := Ok;
  check_consistent_length := consistent;
  decide_rule := greater;
  criterion := fun ys => if all_equal ys then 0%Q else 1%Q;
  is_zero := fun s => Qeq_bool s 0;
  _best_split := fun Xc yc =>
    (0%Q, match boundary Xc yc with
          | Some v => if both_sides v Xc then Some (0%nat, v) else None
          | None => None
          end);
  _evaluate_leaf := first_label
|}.

(** A selector that always proposes the first row's feature 0 as the
    threshold, whatever the labels. *)
Definition eager : Collaborators frow Z Q Q Z := {|
  validate_feature_matrix := Ok;
  validate_target_vector := Ok;
  check_consistent_length := consistent;
  decide_rule := greater;
  criterion := fun ys => if all_equal ys then 0%Q else 1%Q;
  is_zero := fun s => Qeq_bool s 0;
  _best_split := fun Xc yc =>
    (0%Q, match Xc with x :: _ => Some (0%nat, nth 0 x 0%Q) | [] => None end);
  _evaluate_leaf := first_label
|}.

Definition X4 : list frow := [[0%Q]; [1%Q]; [2%Q]; [3%Q]].
Definition y4 : list Z := [0; 0; 1; 1].
Definition y4_alt : list Z := [0; 1; 0; 1].
Definition X2 : list frow := [[0%Q]; [0%Q]].
Definition y2 : list Z := [0; 1].

(** [DecisionTree(max_depth, max_nodes, max_leaf_nodes)] *)
Definition tree (md mn ml : option Z) : DecisionTree frow Z Q Q Z :=
  __init__ md mn ml 1.

(** [Node.__str__] for the examples: the size of the node. *)
Definition size_line (nd : Node Q Q Z) : string := "size " +:+ pretty (size nd).

(** ** Properties *)

Section Properties.

Context {row label value score pred : Type}.
Context {C : Collaborators row label value score pred}.

Local Abbreviation Node := (Node value score pred).
Local Abbreviation DecisionTree := (DecisionTree row label value score pred).
Local Abbreviation new_root := (new_root (value:=value) (score:=score) (pred:=pred)).
Local Abbreviation separating := (separating (C:=C)).

Implicit Types (self : DecisionTree) (curr nd : Node) (fuel : nat).

(** *** The error monad *)

Lemma bind_Ok {A B : Type} (m : result A) (f : A -> result B) (b : B) :
  bind m f = Ok b -> exists a, m = Ok a /\ f a = Ok b.
Proof. destruct m as [a|e]; simpl; [eauto | discriminate]. Qed.

Ltac bind_inv H :=
  let a := fresh "a" in
  let Ha := fresh "Ha" in
  apply bind_Ok in H; destruct H as (a & Ha & H).

Lemma collect_Forall2 {A B : Type} (f : A -> result B) xs bs :
  collect f xs = Ok bs -> Forall2 (fun x b => f x = Ok b) xs bs.
Proof.
  revert bs; induction xs as [|x xs IH]; simpl; intros bs H.
  - inversion H; constructor.
  - bind_inv H. bind_inv H. inversion H; subst. constructor; eauto.
Qed.

Lemma collect_total {A B : Type} (f : A -> result B) xs :
  Forall (fun x => exists b, f x = Ok b) xs -> exists bs, collect f xs = Ok bs.
Proof.
  induction 1 as [|x xs [b Hb] _ [bs Hbs]]; simpl; [eauto|].
  rewrite Hb; simpl. rewrite Hbs; simpl. eauto.
Qed.

(** *** Inversion of the builder's steps *)

Lemma grow_inv rec self child self' child' :
  grow rec self child = Ok (self', child') ->
  exists pure, _is_pure self child = Ok pure /\
    ((negb pure && _check_criterion self child = true /\
      rec self child = Ok (self', child')) \/
     (negb pure && _check_criterion self child = false /\
      self' = incr_num_leaf_nodes self /\ child' = (make_leaf self child).2)).
Proof.
  unfold grow; intros H. bind_inv H. exists a; split; [done|].
  destruct (negb a && _check_criterion self child); [left | right]; split; try done.
  by inversion H.
Qed.

(** The two outcomes of one call of [_split]: the node is sealed, or it
    receives a rule and two grown children. *)
Inductive split_step (rec : DecisionTree -> Node -> result (DecisionTree * Node))
    self curr : DecisionTree -> Node -> Prop :=
| step_leaf Xc yc :
    take (X self) (values curr) = Ok Xc ->
    take (y self) (values curr) = Ok yc ->
    snd (_best_split Xc yc) = None ->
    split_step rec self curr (incr_num_leaf_nodes self) (make_leaf self curr).2
| step_node Xc yc l pv v ds nv0 nv1 s1 lc s2 rc :
    take (X self) (values curr) = Ok Xc ->
    take (y self) (values curr) = Ok yc ->
    _best_split Xc yc = (l, Some (pv, v)) ->
    collect (decision (set_rule curr l pv v)) Xc = Ok ds ->
    next_values self (set_split (set_rule curr l pv v) (size curr - sum ds, sum ds))
      (values curr) = Ok (nv0, nv1) ->
    grow rec (incr_num_nodes self)
      (new_Node (size curr - sum ds) nv0 (depth curr + 1) None) = Ok (s1, lc) ->
    grow rec (incr_num_nodes s1)
      (new_Node (sum ds) nv1 (depth curr + 1) None) = Ok (s2, rc) ->
    split_step rec self curr s2
      (set_right
         (set_left (set_split (set_rule curr l pv v) (size curr - sum ds, sum ds)) lc)
         rc).

Lemma _split_body_inv rec self curr self' curr' :
  _split_body rec self curr = Ok (self', curr') ->
  split_step rec self curr self' curr'.
Proof.
  unfold _split_body; intros H.
  bind_inv H. rename a into Xc. bind_inv H. rename a into yc.
  destruct (_best_split Xc yc) as [l [[pv v]|]] eqn:Hbs; simpl in H.
  - bind_inv H. rename a into ds.
    bind_inv H. destruct a as [nv0 nv1].
    bind_inv H. destruct a as [s1 lc].
    bind_inv H. destruct a as [s2 rc].
    inversion H; subst. eapply step_node; eauto.
  - inversion H; subst. eapply step_leaf; eauto. by rewrite Hbs.
Qed.

Ltac split_cases fuel H :=
  destruct fuel as [|fuel]; [discriminate H|];
  simpl in H; apply _split_body_inv in H; destruct H.

Ltac grow_cases H :=
  let pure := fresh "pure" in
  let Hpure := fresh "Hpure" in
  let Hcheck := fresh "Hcheck" in
  apply grow_inv in H;
  destruct H as (pure & Hpure & [[Hcheck H] | [Hcheck [-> ->]]]).

(** *** Sealed nodes and fresh nodes *)

Lemma new_Node_fresh sz vs d : fresh (new_Node (value:=value) (score:=score) (pred:=pred) sz vs d None).
Proof. by repeat split. Qed.

Lemma make_leaf_nodes self nd :
  left nd = None -> right nd = None ->
  nodes (make_leaf self nd).2 = [(make_leaf self nd).2].
Proof. destruct nd; simpl; intros -> ->; reflexivity. Qed.

Lemma make_leaf_counts self nd :
  left nd = None -> right nd = None ->
  count_nodes (make_leaf self nd).2 = 1 /\
  count_leaves (make_leaf self nd).2 = 1 /\
  height (make_leaf self nd).2 = 1.
Proof. destruct nd; simpl; intros -> ->; done. Qed.

(** *** What [_split] leaves untouched *)

Lemma same_setup_trans (s1 s2 s3 : DecisionTree) :
  same_setup s1 s2 -> same_setup s2 s3 -> same_setup s1 s3.
Proof. unfold same_setup; intuition congruence. Qed.

Lemma same_setup_counters self nn nl : same_setup self (set_counters self nn nl).
Proof. by repeat split. Qed.

Lemma split_same_setup fuel : forall self curr self' curr',
  _split fuel self curr = Ok (self', curr') -> same_setup self self'.
Proof.
  induction fuel as [|fuel IH]; intros self curr self' curr' H; [discriminate|].
  simpl in H; apply _split_body_inv in H; destruct H as [|? ? ? ? ? ? ? ? s1 lc s2 rc ? ? ? ? ? Hl Hr].
  - apply same_setup_counters.
  - assert (forall s c s' c', grow (_split fuel) s c = Ok (s', c') -> same_setup s s') as Hg.
    { intros s c s' c' G. grow_cases G; [eauto|].
      apply same_setup_counters. }
    apply Hg in Hl, Hr.
    eapply same_setup_trans; [|exact Hr].
    eapply same_setup_trans; [|apply same_setup_counters].
    eapply same_setup_trans; [|exact Hl]. apply same_setup_counters.
Qed.

(** *** The counters against a traversal *)

Lemma split_counters fuel : forall self curr self' curr',
  _split fuel self curr = Ok (self', curr') -> fresh curr ->
  num_nodes self' = num_nodes self + count_nodes curr' - 1 /\
  num_leaf_nodes self' = num_leaf_nodes self + count_leaves curr' /\
  1 <= count_leaves curr' <= count_nodes curr'.
Proof.
  induction fuel as [|fuel IH]; intros self curr self' curr' H (Hl0 & Hr0 & Hlf);
    [discriminate|].
  simpl in H; apply _split_body_inv in H;
    destruct H as [|? ? ? ? ? ds nv0 nv1 s1 lc s2 rc _ _ _ _ _ Hl Hr].
  - destruct (make_leaf_counts self curr Hl0 Hr0) as (-> & -> & _). simpl. lia.
  - assert (forall s c s' c', grow (_split fuel) s c = Ok (s', c') -> fresh c ->
        num_nodes s' = num_nodes s + count_nodes c' - 1 /\
        num_leaf_nodes s' = num_leaf_nodes s + count_leaves c' /\
        1 <= count_leaves c' <= count_nodes c') as Hg.
    { intros s c s' c' G Hf. grow_cases G; [eauto|].
      destruct Hf as (Hf1 & Hf2 & _).
      destruct (make_leaf_counts s c Hf1 Hf2) as (-> & -> & _).
      simpl. lia. }
    apply Hg in Hl, Hr; try apply new_Node_fresh.
    destruct curr; simpl in *. unfold is_leaf in *; simpl in *. rewrite Hlf. lia.
Qed.

(** *** Attributes that [_split] keeps *)

Lemma split_keeps fuel self curr self' curr' :
  _split fuel self curr = Ok (self', curr') ->
  values curr' = values curr /\ size curr' = size curr /\ depth curr' = depth curr.
Proof. intros H. split_cases fuel H; done. Qed.

Lemma grow_keeps fuel self child self' child' :
  grow (_split fuel) self child = Ok (self', child') ->
  values child' = values child /\ size child' = size child /\
  depth child' = depth child.
Proof. intros H. grow_cases H; [by eapply split_keeps | done]. Qed.

Lemma grow_same_setup fuel self child self' child' :
  grow (_split fuel) self child = Ok (self', child') -> same_setup self self'.
Proof.
  intros H. grow_cases H; [by eapply split_same_setup | apply same_setup_counters].
Qed.

(** *** The call of [fit] *)

Lemma fit_unfold fuel self X0 y0 :
  fit fuel self X0 y0 =
  let! Xv := validate_feature_matrix X0 in
  let! yv := validate_target_vector y0 in
  let! _ := check_consistent_length X0 y0 in
  let! (s, r) := _split fuel (start self Xv yv) (new_root (length Xv)) in
  Ok (set_root s r).
Proof. reflexivity. Qed.

Lemma fit_inv fuel self X0 y0 self' :
  fit fuel self X0 y0 = Ok self' ->
  exists Xv yv s r,
    validate_feature_matrix X0 = Ok Xv /\
    validate_target_vector y0 = Ok yv /\
    check_consistent_length X0 y0 = Ok tt /\
    _split fuel (start self Xv yv) (new_root (length Xv)) = Ok (s, r) /\
    self' = set_root s r.
Proof.
  rewrite fit_unfold; intros H.
  bind_inv H. rename a into Xv. bind_inv H. rename a into yv.
  bind_inv H. destruct a. bind_inv H. destruct a as [s r].
  inversion H. by exists Xv, yv, s, r.
Qed.

Lemma new_root_fresh n' : fresh (new_root n').
Proof. by repeat split. Qed.

(** *** The partition of the sample indices *)

Lemma side_ext self self' nd nd' i :
  X self' = X self -> p nd' = p nd -> val nd' = val nd ->
  side self' nd' i = side self nd i.
Proof. unfold side, decision. by intros -> -> ->. Qed.

Lemma next_values_spec self nd idx l r :
  next_values self nd idx = Ok (l, r) ->
  l = filter (fun i => side self nd i = Some false) idx /\
  r = filter (fun i => side self nd i = Some true) idx /\
  Forall (fun i => is_Some (side self nd i)) idx.
Proof.
  revert l r; induction idx as [|i idx IH]; simpl; intros l r H.
  - inversion H. by repeat split.
  - bind_inv H. rename a into x. bind_inv H. rename a into d.
    bind_inv H. destruct a as [l' r'].
    destruct (IH _ _ Ha1) as (-> & -> & HF).
    assert (side self nd i = Some d) as Hs.
    { unfold side. destruct (X self) as [a|]; [|discriminate].
      unfold item in Ha. destruct (a !! i); [|discriminate].
      inversion Ha; subst. by rewrite Ha0. }
    rewrite !filter_cons, Hs.
    destruct d; inversion H; subst; repeat split;
      try (constructor; [by eexists|done]);
      repeat case_decide; congruence.
Qed.

Lemma partitions_ext self self' nd nd' lc rc :
  X self' = X self -> p nd' = p nd -> val nd' = val nd ->
  values nd' = values nd ->
  partitions self nd lc rc -> partitions self' nd' lc rc.
Proof.
  intros HX Hp Hv Hvs (F1 & F2 & F3).
  assert (forall i, side self' nd' i = side self nd i) as E
    by (intros i; by apply side_ext).
  unfold partitions. rewrite Hvs, F1, F2. repeat split.
  - apply list_filter_iff. intros i. by rewrite E.
  - apply list_filter_iff. intros i. by rewrite E.
  - eapply Forall_impl; [exact F3|]. intros i; simpl. by rewrite E.
Qed.

Lemma split_partitions fuel : forall self curr self' curr',
  _split fuel self curr = Ok (self', curr') -> fresh curr ->
  Forall (fun nd => forall lc rc, left nd = Some lc -> right nd = Some rc ->
            partitions self nd lc rc) (nodes curr').
Proof.
  induction fuel as [|fuel IH]; intros self curr self' curr' H (Hl0 & Hr0 & Hlf);
    [discriminate|].
  simpl in H; apply _split_body_inv in H;
    destruct H as [|? ? l pv v ds nv0 nv1 s1 lc s2 rc _ _ _ _ Hnv Hl Hr].
  - rewrite make_leaf_nodes by done. constructor; [|constructor].
    simpl. intros ? ? E. congruence.
  - assert (forall s c s' c', grow (_split fuel) s c = Ok (s', c') -> fresh c ->
        X s = X self ->
        Forall (fun nd => forall lc rc, left nd = Some lc -> right nd = Some rc ->
                  partitions self nd lc rc) (nodes c')) as Hg.
    { intros s c s' c' G Hf HX. grow_cases G.
      - eapply Forall_impl; [eapply IH; eauto|].
        simpl. intros nd Hnd lc' rc' E1 E2.
        eapply partitions_ext; [| | | |eapply Hnd]; eauto.
      - destruct Hf as (Hf1 & Hf2 & _). rewrite make_leaf_nodes by done.
        constructor; [|constructor]. simpl. intros ? ? E. congruence. }
    pose proof (grow_same_setup _ _ _ _ _ Hl) as (HX1 & _).
    pose proof (grow_keeps _ _ _ _ _ Hl) as (Vl & _).
    pose proof (grow_keeps _ _ _ _ _ Hr) as (Vr & _).
    apply Hg in Hl, Hr; try apply new_Node_fresh; try done.
    simpl. constructor; [|by apply Forall_app].
    simpl. intros lc' rc' [= <-] [= <-].
    apply next_values_spec in Hnv as (E0 & E1 & HF). simpl in *.
    eapply (partitions_ext self self
              (set_split (set_rule curr l pv v) (size curr - sum ds, sum ds)));
      try done.
    unfold partitions. by rewrite Vl, Vr.
Qed.

(** The children of a node that has both hold the stable partition of
    the node's sample indices by the node's rule: the left child the
    indices whose row the rule sends left (decision false), the right
    child those it sends right (decision true), each in the order of
    the parent; the two are disjoint and together they cover the
    parent's indices. *)
Lemma children_partition fuel self X0 y0 self' :
  fit fuel self X0 y0 = Ok self' ->
  exists r, root self' = Some r /\
    forall nd lc rc,
      nd ∈ nodes r -> left nd = Some lc -> right nd = Some rc ->
      values lc = filter (fun i => side self' nd i = Some false) (values nd) /\
      values rc = filter (fun i => side self' nd i = Some true) (values nd) /\
      sublist (values lc) (values nd) /\
      sublist (values rc) (values nd) /\
      (forall i, i ∈ values nd <-> i ∈ values lc \/ i ∈ values rc) /\
      (forall i, i ∈ values lc -> i ∉ values rc) /\
      (forall i, i ∈ values nd ->
         (i ∈ values lc <-> side self' nd i = Some false) /\
         (i ∈ values rc <-> side self' nd i = Some true)).
Proof.
  intros H. apply fit_inv in H as (Xv & yv & s & r & _ & _ & _ & H & ->).
  exists r; split; [done|].
  pose proof (split_same_setup _ _ _ _ _ H) as (HX & _).
  pose proof (split_partitions _ _ _ _ _ H (new_root_fresh _)) as HP.
  rewrite Forall_forall in HP.
  intros nd lc rc Hnd Hl Hr.
  assert (partitions (set_root s r) nd lc rc) as (F1 & F2 & F3).
  { eapply partitions_ext; [| | | |eapply HP]; eauto. }
  rewrite Forall_forall in F3.
  split; [done|]. split; [done|].
  split; [rewrite F1; apply sublist_filter|].
  split; [rewrite F2; apply sublist_filter|].
  split; [|split].
  - intros i. rewrite F1, F2, !list_elem_of_filter. split; [|tauto].
    intros Hi. destruct (F3 i Hi) as [[|] Hd]; tauto.
  - intros i. rewrite F1, F2, !list_elem_of_filter. intros [E _] [E' _]. congruence.
  - intros i Hi. rewrite F1, F2, !list_elem_of_filter. tauto.
Qed.

(** *** The stopping criterion *)

Lemma check_true self nd :
  _check_criterion self nd = true ->
  lt_limit (depth nd) (max_depth self) = true /\
  lt_limit (num_nodes self) (max_nodes self) = true /\
  lt_limit (num_leaf_nodes self) (max_leaf_nodes self) = true /\
  1 < size nd.
Proof.
  unfold _check_criterion. rewrite !andb_true_iff, Z.ltb_lt. tauto.
Qed.

Lemma grow_rec_check (pure : bool) self nd :
  negb pure && _check_criterion self nd = true -> _check_criterion self nd = true.
Proof. by intros [_ ?]%andb_true_iff. Qed.

Lemma grow_counters fuel self child self' child' :
  grow (_split fuel) self child = Ok (self', child') -> fresh child ->
  num_nodes self' = num_nodes self + count_nodes child' - 1 /\
  num_leaf_nodes self' = num_leaf_nodes self + count_leaves child' /\
  1 <= count_leaves child' <= count_nodes child'.
Proof.
  intros H Hf. grow_cases H; [by eapply split_counters|].
  destruct Hf as (Hf1 & Hf2 & _).
  destruct (make_leaf_counts self child Hf1 Hf2) as (-> & -> & _). simpl. lia.
Qed.

Lemma height_pos nd : 1 <= height nd.
Proof.
  induction nd as [nd IHl IHr] using Node_induction.
  destruct nd as [? ? ? ? ? ? ? ? ? [lc|] [rc|]]; simpl in *; lia.
Qed.

Lemma depths_within_weaken lo hi lo' hi' nd :
  lo' <= lo -> hi <= hi' -> depths_within lo hi nd -> depths_within lo' hi' nd.
Proof. unfold depths_within. intros ? ? [? ?]. split; [lia|done]. Qed.

Lemma split_depths fuel : forall self curr self' curr' D,
  _split fuel self curr = Ok (self', curr') -> fresh curr ->
  max_depth self = fin D ->
  Forall (depths_within (depth curr) (Z.max D (depth curr + 1))) (nodes curr').
Proof.
  induction fuel as [|fuel IH]; intros self curr self' curr' D H (Hl0 & Hr0 & Hlf) HD;
    [discriminate|].
  simpl in H; apply _split_body_inv in H;
    destruct H as [|? ? l pv v ds nv0 nv1 s1 lc s2 rc _ _ _ _ _ Hl Hr].
  - rewrite make_leaf_nodes by done. constructor; [|constructor].
    split; simpl; [lia|]. intros c [E|E]; congruence.
  - assert (forall s c s' c', grow (_split fuel) s c = Ok (s', c') -> fresh c ->
        max_depth s = fin D -> depth c = depth curr + 1 ->
        Forall (depths_within (depth curr) (Z.max D (depth curr + 1))) (nodes c'))
      as Hg.
    { intros s c s' c' G Hf HDs Hd. grow_cases G.
      - apply grow_rec_check, check_true in Hcheck as (Hlt & _).
        rewrite HDs in Hlt; simpl in Hlt; apply Z.ltb_lt in Hlt.
        eapply Forall_impl; [eapply IH; eauto|].
        intros nd. apply depths_within_weaken; lia.
      - destruct Hf as (Hf1 & Hf2 & _). rewrite make_leaf_nodes by done.
        constructor; [|constructor].
        split; simpl; [lia|]. intros c0 [E|E]; congruence. }
    pose proof (grow_same_setup _ _ _ _ _ Hl) as (_ & _ & _ & _ & HD1 & _).
    pose proof (grow_keeps _ _ _ _ _ Hl) as (_ & _ & Dl).
    pose proof (grow_keeps _ _ _ _ _ Hr) as (_ & _ & Dr).
    apply Hg in Hl, Hr; try apply new_Node_fresh; try done;
      [|simpl in *; congruence].
    simpl. constructor; [|by apply Forall_app].
    split; simpl; [lia|].
    intros c [[= <-]|[= <-]]; [rewrite Dl | rewrite Dr]; done.
Qed.

(** C4 (as amended). With [max_depth = D] for a positive integer [D],
    the root of the tree that [fit] returns has depth 1, every child has
    its parent's depth plus 1, and no node is deeper than [max D 2]: the
    limit decides whether a child is split further, the root is split
    without consulting it. *)
Theorem depth_limit fuel self X0 y0 self' D :
  0 < D -> max_depth self = fin D ->
  fit fuel self X0 y0 = Ok self' ->
  exists r, root self' = Some r /\ depth r = 1 /\
    forall nd, nd ∈ nodes r ->
      1 <= depth nd <= Z.max D 2 /\
      forall c, left nd = Some c \/ right nd = Some c -> depth c = depth nd + 1.
Proof.
  intros HD Hmax H.
  apply fit_inv in H as (Xv & yv & s & r & _ & _ & _ & H & ->).
  exists r; split; [done|].
  pose proof (split_keeps _ _ _ _ _ H) as (_ & _ & Hd).
  split; [done|].
  pose proof (split_depths _ _ _ _ _ D H (new_root_fresh _) Hmax) as HF.
  rewrite Forall_forall in HF. intros nd Hnd. exact (HF nd Hnd).
Qed.



(** *** Sizes, and the children that are split further *)

Lemma filter_side_length self nd idx :
  Forall (fun i => is_Some (side self nd i)) idx ->
  (length (filter (fun i => side self nd i = Some false) idx) +
   length (filter (fun i => side self nd i = Some true) idx) = length idx)%nat.
Proof.
  induction 1 as [|i idx [d Hd] _ IH]; [done|].
  rewrite !filter_cons, Hd. destruct d; repeat case_decide; try congruence;
    simpl; lia.
Qed.

Lemma take_rows {A : Type} (a : list A) idx xs :
  take (Some a) idx = Ok xs -> Forall2 (fun i x => a !! i = Some x) idx xs.
Proof.
  simpl. intros H%collect_Forall2. eapply Forall2_impl; [exact H|].
  simpl. unfold item. intros i x. by destruct (a !! i); intros [= ->].
Qed.

Lemma sum_decisions self nd a idx Xc ds :
  X self = Some a ->
  Forall2 (fun i x => a !! i = Some x) idx Xc ->
  collect (decision nd) Xc = Ok ds ->
  sum ds = Z.of_nat (length (filter (fun i => side self nd i = Some true) idx)).
Proof.
  intros HX HF. revert ds. induction HF as [|i x idx Xc Hi _ IH]; simpl; intros ds H.
  - by inversion H.
  - bind_inv H. rename a0 into d. bind_inv H. inversion H; subst. simpl.
    rewrite (IH _ Ha0), filter_cons.
    assert (side self nd i = Some d) as -> by (unfold side; by rewrite HX, Hi, Ha).
    destruct d; case_decide; try congruence; simpl; lia.
Qed.

Lemma make_leaf_sealed self nd :
  left nd = None -> right nd = None -> sealed (make_leaf self nd).2.
Proof. by repeat split. Qed.

Lemma split_sized fuel : forall self curr self' curr',
  _split fuel self curr = Ok (self', curr') -> fresh curr ->
  size curr = Z.of_nat (length (values curr)) ->
  Forall sized (nodes curr').
Proof.
  induction fuel as [|fuel IH]; intros self curr self' curr' H (Hl0 & Hr0 & Hlf) Hsz;
    [discriminate|].
  simpl in H; apply _split_body_inv in H;
    destruct H as [|Xc yc l pv v ds nv0 nv1 s1 lc s2 rc HXc _ _ Hds Hnv Hl Hr].
  - rewrite make_leaf_nodes by done. constructor; [|constructor].
    split; simpl; [done|]. intros c [E|E]; congruence.
  - assert (forall s c s' c', grow (_split fuel) s c = Ok (s', c') -> fresh c ->
        size c = Z.of_nat (length (values c)) ->
        Forall sized (nodes c') /\ (sealed c' \/ 1 < size c')) as Hg.
    { intros s c s' c' G Hf Hc.
      pose proof (grow_keeps _ _ _ _ _ G) as (_ & Sc & _).
      grow_cases G.
      - split; [eauto|]. right. rewrite Sc.
        by apply grow_rec_check, check_true in Hcheck as (_ & _ & _ & ?).
      - destruct Hf as (Hf1 & Hf2 & _). rewrite make_leaf_nodes by done.
        split; [|left; by apply make_leaf_sealed].
        constructor; [|constructor].
        split; simpl; [done|]. intros c0 [E|E]; congruence. }
    destruct (X self) as [a|] eqn:HX; [|discriminate].
    apply take_rows in HXc.
    pose proof (sum_decisions self _ a _ _ _ HX HXc Hds) as Hsum.
    apply next_values_spec in Hnv as (E0 & E1 & HF).
    pose proof (filter_side_length _ _ _ HF) as Hlen.
    assert (forall i, side self (set_split (set_rule curr l pv v)
                                   (size curr - sum ds, sum ds)) i
                      = side self (set_rule curr l pv v) i) as Eside
      by (intros i; by apply side_ext).
    simpl in E0, E1, Hlen.
    rewrite (list_filter_iff _ (fun i => side self (set_rule curr l pv v) i = Some true))
      in E1, Hlen by (intros i; by rewrite Eside).
    apply Hg in Hl as (Fl & Cl), Hr as (Fr & Cr); try apply new_Node_fresh;
      [| simpl; subst nv1; lia | simpl; subst nv0 nv1; lia].
    simpl. constructor; [|by apply Forall_app].
    split; simpl; [done|].
    intros c [[= <-]|[= <-]]; done.
Qed.

Lemma filter_none {A : Type} (P : A -> Prop) `{!forall x, Decision (P x)} (l : list A) :
  (forall x, x ∈ l -> ~ P x) -> filter P l = [].
Proof.
  induction l as [|x l IH]; [done|]. intros Hall.
  rewrite filter_cons_False by (apply Hall; left).
  apply IH. intros z Hz. apply Hall. by right.
Qed.

Lemma filter_every {A : Type} (P : A -> Prop) `{!forall x, Decision (P x)} (l : list A) :
  (forall x, x ∈ l -> P x) -> filter P l = l.
Proof.
  induction l as [|x l IH]; [done|]. intros Hall.
  rewrite filter_cons_True by (apply Hall; left).
  f_equal. apply IH. intros z Hz. apply Hall. by right.
Qed.

Lemma nodes_self nd : nd ∈ nodes nd.
Proof. destruct nd; simpl. left. Qed.

Lemma nodes_child r : forall nd c,
  nd ∈ nodes r -> left nd = Some c \/ right nd = Some c -> c ∈ nodes r.
Proof.
  induction r as [r IHl IHr] using Node_induction. intros nd c Hnd Hc.
  destruct r as [? ? ? ? ? ? ? ? ? l0 r0]; simpl in *.
  apply elem_of_cons in Hnd as [->|Hnd].
  - simpl in Hc. right. apply elem_of_app.
    destruct Hc as [->| ->]; [left | right]; apply nodes_self.
  - right. apply elem_of_app. apply elem_of_app in Hnd as [Hnd|Hnd].
    + left. destruct l0 as [lc|]; [|by apply elem_of_nil in Hnd]. eapply IHl; eauto.
    + right. destruct r0 as [rc|]; [|by apply elem_of_nil in Hnd]. eapply IHr; eauto.
Qed.

(** C10. The builder does not look at the sizes of the two sides of a
    partition.  In every tree that [fit] returns, a node whose rule
    sends all of its samples to one side has, on the other side, a child
    with no sample indices and size 0; that child is sealed as a leaf
    like any other child that cannot be split, and the first child holds
    the same indices as the parent. *)
Theorem empty_child fuel self X0 y0 self' :
  fit fuel self X0 y0 = Ok self' ->
  exists r, root self' = Some r /\
    forall nd lc rc,
      nd ∈ nodes r -> left nd = Some lc -> right nd = Some rc ->
      ((forall i, i ∈ values nd -> side self' nd i = Some false) ->
         values rc = [] /\ size rc = 0 /\ sealed rc /\ values lc = values nd) /\
      ((forall i, i ∈ values nd -> side self' nd i = Some true) ->
         values lc = [] /\ size lc = 0 /\ sealed lc /\ values rc = values nd).
Proof.
  intros H. apply fit_inv in H as (Xv & yv & s & r & _ & _ & _ & H & ->).
  exists r; split; [done|].
  pose proof (split_same_setup _ _ _ _ _ H) as (HX & _).
  pose proof (split_partitions _ _ _ _ _ H (new_root_fresh _)) as HP.
  assert (Forall sized (nodes r)) as HS.
  { eapply split_sized; [exact H | apply new_root_fresh |].
    simpl. by rewrite length_seq. }
  rewrite Forall_forall in HP, HS.
  intros nd lc rc Hnd Hl Hr.
  assert (partitions (set_root s r) nd lc rc) as (F1 & F2 & _).
  { eapply partitions_ext; [| | | |eapply HP]; eauto. }
  destruct (HS nd Hnd) as (_ & Hch).
  assert (lc ∈ nodes r) as Hlc by (apply (nodes_child r nd); [done | by left]).
  assert (rc ∈ nodes r) as Hrc by (apply (nodes_child r nd); [done | by right]).
  destruct (HS lc Hlc) as (Sl & _). destruct (HS rc Hrc) as (Sr & _).
  split; intros Hall.
  - assert (values rc = []) as E.
    { rewrite F2. apply filter_none. intros i Hi. rewrite (Hall i Hi). congruence. }
    rewrite E in Sr. simpl in Sr. repeat split; try done.
    + destruct (Hch rc (or_intror Hr)) as [(? & _)|?]; [done|lia].
    + destruct (Hch rc (or_intror Hr)) as [(_ & ? & _)|?]; [done|lia].
    + destruct (Hch rc (or_intror Hr)) as [(_ & _ & ?)|?]; [done|lia].
    + rewrite F1. by apply filter_every.
  - assert (values lc = []) as E.
    { rewrite F1. apply filter_none. intros i Hi. rewrite (Hall i Hi). congruence. }
    rewrite E in Sl. simpl in Sl. repeat split; try done.
    + destruct (Hch lc (or_introl Hl)) as [(? & _)|?]; [done|lia].
    + destruct (Hch lc (or_introl Hl)) as [(_ & ? & _)|?]; [done|lia].
    + destruct (Hch lc (or_introl Hl)) as [(_ & _ & ?)|?]; [done|lia].
    + rewrite F2. by apply filter_every.
Qed.

(** The size test of [_check_criterion] is applied to the children
    only: in every tree that [fit] returns, a child of size at most 1 is
    sealed as a leaf and has no children, whatever the limits and
    whatever the selector.  The root is handed to [_split] without that
    test: a root of size 1 becomes a leaf, in a tree of one node and one
    leaf, when the selector reports no split on the single sample. *)
Lemma small_child_sealed fuel self X0 y0 self' :
  fit fuel self X0 y0 = Ok self' ->
  exists r, root self' = Some r /\
    (forall nd c, nd ∈ nodes r -> left nd = Some c \/ right nd = Some c ->
       size c <= 1 -> sealed c) /\
    (forall x l,
       validate_feature_matrix X0 = Ok [x] ->
       validate_target_vector y0 = Ok [l] ->
       snd (_best_split [x] [l]) = None ->
       size r = 1 /\ sealed r /\ count_nodes r = 1 /\ count_leaves r = 1 /\
       num_nodes self' = num_nodes self + 1 /\
       num_leaf_nodes self' = num_leaf_nodes self + 1).
Proof.
  intros H. apply fit_inv in H as (Xv & yv & s & r & HXv & Hyv & _ & H & ->).
  exists r; split; [done|]. split.
  - assert (Forall sized (nodes r)) as HS.
    { eapply split_sized; [exact H | apply new_root_fresh |].
      simpl. by rewrite length_seq. }
    rewrite Forall_forall in HS. intros nd c Hnd Hc Hsz.
    destruct (HS nd Hnd) as (_ & Hch). destruct (Hch c Hc); [done|lia].
  - intros x l Ex El Hnone. rewrite Ex in HXv. rewrite El in Hyv.
    injection HXv as <-. injection Hyv as <-.
    destruct fuel as [|fuel]; [discriminate|]. simpl in H.
    unfold _split_body in H. simpl in H.
    destruct (_best_split [x] [l]) as [lo [bp|]]; [discriminate|].
    simpl in H. injection H as <- <-. by repeat split.
Qed.

(** *** Termination *)

Lemma take_total {A : Type} (a : list A) idx :
  Forall (fun i => (i < length a)%nat) idx -> exists xs, take (Some a) idx = Ok xs.
Proof.
  intros HF. simpl. apply collect_total. eapply Forall_impl; [exact HF|].
  simpl. intros i Hi. unfold item.
  destruct (lookup_lt_is_Some_2 a i Hi) as [x ->]. eauto.
Qed.

Lemma collect_decision nd pv v Xc :
  p nd = Some pv -> val nd = Some v ->
  collect (decision nd) Xc = Ok (map (decide_rule pv v) Xc).
Proof.
  intros Hp Hv. induction Xc as [|x Xc IH]; simpl; [done|].
  unfold decision at 1. rewrite Hp, Hv. simpl. by rewrite IH.
Qed.

Lemma next_values_total self nd a pv v idx :
  X self = Some a -> p nd = Some pv -> val nd = Some v ->
  Forall (fun i => (i < length a)%nat) idx ->
  exists l r, next_values self nd idx = Ok (l, r).
Proof.
  intros HX Hp Hv. induction 1 as [|i idx Hi _ (l & r & IH)]; simpl; [eauto|].
  rewrite HX. unfold item. destruct (lookup_lt_is_Some_2 a i Hi) as [x ->]. simpl.
  unfold decision at 1. rewrite Hp, Hv. simpl. rewrite IH. simpl.
  destruct (decide_rule pv v x); eauto.
Qed.

Lemma side_of_row self nd a pv v i x :
  X self = Some a -> p nd = Some pv -> val nd = Some v -> a !! i = Some x ->
  side self nd i = Some (decide_rule pv v x).
Proof. intros HX Hp Hv Hi. unfold side, decision. by rewrite HX, Hi, Hp, Hv. Qed.

Lemma split_total fuel : forall self curr a b,
  X self = Some a -> y self = Some b ->
  Forall (fun i => (i < length a)%nat /\ (i < length b)%nat) (values curr) ->
  bounded_by self curr fuel ->
  exists self' curr', _split fuel self curr = Ok (self', curr').
Proof.
  induction fuel as [|fuel IH]; intros self curr a b HX Hy Hin Hfuel.
  { destruct Hfuel as [[_ ?]|(D & _ & ?)]; lia. }
  assert (Forall (fun i => (i < length a)%nat) (values curr)) as Hina
    by (eapply Forall_impl; [exact Hin|]; simpl; tauto).
  assert (Forall (fun i => (i < length b)%nat) (values curr)) as Hinb
    by (eapply Forall_impl; [exact Hin|]; simpl; tauto).
  simpl. unfold _split_body.
  destruct (take_total a _ Hina) as [Xc HXc].
  destruct (take_total b _ Hinb) as [yc Hyc].
  rewrite HX, Hy, HXc, Hyc. simpl.
  destruct (_best_split Xc yc) as [lo [[pv v]|]] eqn:Hbs; simpl; [|eauto].
  rewrite (collect_decision _ pv v) by done. simpl.
  set (ds := map (decide_rule pv v) Xc).
  set (c2 := set_split (set_rule curr lo pv v) (size curr - sum ds, sum ds)).
  destruct (next_values_total self c2 a pv v (values curr) HX eq_refl eq_refl Hina)
    as (nv0 & nv1 & Hnv).
  change (values (set_rule curr lo pv v)) with (values curr).
  rewrite Hnv. simpl.
  apply next_values_spec in Hnv as (E0 & E1 & _).
  apply take_rows in HXc.
  assert (forall x, x ∈ Xc -> exists i, i ∈ values curr /\ a !! i = Some x) as Hrow.
  { intros x Hx. apply list_elem_of_lookup in Hx as [k Hk].
    destruct (Forall2_lookup_r _ _ _ _ _ HXc Hk) as (i & Hi & Hai).
    exists i. split; [|done]. apply list_elem_of_lookup. eauto. }
  assert (separating ->
          (length nv0 < length (values curr))%nat /\
          (length nv1 < length (values curr))%nat) as Hlen.
  { intros Hsep.
    destruct (Hsep _ _ _ _ _ Hbs) as ((xt & Hxt & Dt) & (xf & Hxf & Df)). split.
    - destruct (Hrow xt Hxt) as (i & Hi & Hai). rewrite E0.
      eapply length_filter_lt; [exact Hi|].
      rewrite (side_of_row self c2 a pv v i xt) by done. rewrite Dt. congruence.
    - destruct (Hrow xf Hxf) as (i & Hi & Hai). rewrite E1.
      eapply length_filter_lt; [exact Hi|].
      rewrite (side_of_row self c2 a pv v i xf) by done. rewrite Df. congruence. }
  assert (forall s sz vs,
            X s = Some a -> y s = Some b -> max_depth s = max_depth self ->
            Forall (fun i => (i < length a)%nat /\ (i < length b)%nat) vs ->
            (separating -> (length vs < length (values curr))%nat) ->
            exists s' c',
              grow (_split fuel) s (new_Node sz vs (depth curr + 1) None) = Ok (s', c'))
    as Hg.
  { intros s sz vs HXs Hys HDs Hvs Hl. unfold grow, _is_pure. rewrite Hys.
    destruct (take_total b vs) as [ys Hys'].
    { eapply Forall_impl; [exact Hvs|]; simpl; tauto. }
    simpl in Hys' |- *. rewrite Hys'. simpl.
    destruct (negb (is_zero (criterion ys)) && _) eqn:Hc; [|eauto].
    eapply IH; eauto.
    destruct Hfuel as [[Hsep ?]|(D & HD & ?)].
    - left. split; [done|]. specialize (Hl Hsep). simpl. lia.
    - right. exists D. split; [congruence|].
      apply grow_rec_check, check_true in Hc as (Hlt & _).
      rewrite HDs, HD in Hlt. simpl in Hlt. apply Z.ltb_lt in Hlt. simpl. lia. }
  assert (Forall (fun i => (i < length a)%nat /\ (i < length b)%nat) nv0) as Hin0.
  { rewrite E0. apply Forall_forall. intros i [_ Hi]%list_elem_of_filter.
    rewrite Forall_forall in Hin. auto. }
  assert (Forall (fun i => (i < length a)%nat /\ (i < length b)%nat) nv1) as Hin1.
  { rewrite E1. apply Forall_forall. intros i [_ Hi]%list_elem_of_filter.
    rewrite Forall_forall in Hin. auto. }
  destruct (Hg (incr_num_nodes self) (size curr - sum ds) nv0)
    as (s1 & lc & Hl); try done; [intros Hsep; by apply Hlen|].
  change (size (set_rule curr lo pv v)) with (size curr).
  change (depth c2) with (depth curr).
  simpl. rewrite Hl. simpl.
  pose proof (grow_same_setup _ _ _ _ _ Hl) as (HX1 & Hy1 & _ & _ & HD1 & _).
  simpl in HX1, Hy1, HD1.
  destruct (Hg (incr_num_nodes s1) (sum ds) nv1)
    as (s2 & rc & Hr); try done; try (simpl; congruence);
    [intros Hsep; by apply Hlen|].
  rewrite Hr. simpl. eauto.
Qed.

(** [fit] returns whenever the validation accepts consistent inputs
    and either every rule that the selector returns sends at least one
    sample of the node to each side (every child is then smaller than
    its parent; a recursion depth of the number of samples plus one
    suffices) or a maximum depth [D] is configured (a recursion depth
    of [D] suffices). *)
Lemma fit_returns fuel self X0 y0 Xv yv :
  validate_feature_matrix X0 = Ok Xv ->
  validate_target_vector y0 = Ok yv ->
  check_consistent_length X0 y0 = Ok tt ->
  length Xv = length yv ->
  (separating /\ (length Xv < fuel)%nat) \/
  (exists D, max_depth self = fin D /\ (0 < fuel)%nat /\ D <= Z.of_nat fuel) ->
  exists self', fit fuel self X0 y0 = Ok self'.
Proof.
  intros HXv Hyv Hcc Hlen Hfuel.
  rewrite fit_unfold, HXv, Hyv, Hcc. simpl.
  destruct (split_total fuel (start self Xv yv) (new_root (length Xv)) Xv yv)
    as (s & r & Hs); try done.
  - simpl. apply Forall_forall. intros i Hi%elem_of_seq. lia.
  - destruct Hfuel as [[Hsep ?]|(D & HD & ? & ?)].
    + left. split; [done|]. simpl. by rewrite length_seq.
    + right. exists D. split; [done|]. simpl. lia.
  - rewrite Hs. simpl. eauto.
Qed.

(** C5. [fit] terminates for every input that the validation accepts,
    whatever limits are configured and also when none is: a rule of the
    selector leaves at least one sample on each side, so every child is
    smaller than its parent and the recursion of [_split] ends, at the
    latest on one sample, where the selector signals that no split
    exists.  The recursion is never deeper than the number of samples
    plus one: with that depth allowed, [fit] returns. *)
Theorem fit_terminates self X0 y0 Xv yv :
  separating ->
  validate_feature_matrix X0 = Ok Xv ->
  validate_target_vector y0 = Ok yv ->
  check_consistent_length X0 y0 = Ok tt ->
  length Xv = length yv ->
  forall fuel, (length Xv < fuel)%nat ->
    exists self', fit fuel self X0 y0 = Ok self'.
Proof.
  intros Hsep HXv Hyv Hcc Hlen fuel Hfuel.
  apply (fit_returns fuel self X0 y0 Xv yv); try done. by left.
Qed.

(** *** The counters after [fit], and two calls of [fit] *)

(** [fit] adds the nodes and leaves of the new tree to the counters it
    finds; it does not reset them. *)
Lemma fit_counters fuel self X0 y0 self' :
  fit fuel self X0 y0 = Ok self' ->
  exists r, root self' = Some r /\
    num_nodes self' = num_nodes self + count_nodes r /\
    num_leaf_nodes self' = num_leaf_nodes self + count_leaves r /\
    1 <= count_leaves r <= count_nodes r.
Proof.
  intros H. apply fit_inv in H as (Xv & yv & s & r & _ & _ & _ & H & ->).
  exists r; split; [done|].
  pose proof (split_counters _ _ _ _ _ H (new_root_fresh _)) as (HN & HL & HB).
  simpl in *. repeat split; lia.
Qed.

(** On an instance whose counters are still zero, the counters after
    [fit] are the counts of a traversal. *)
Lemma fit_counters_first fuel self X0 y0 self' :
  num_nodes self = 0 -> num_leaf_nodes self = 0 ->
  fit fuel self X0 y0 = Ok self' ->
  exists r, root self' = Some r /\
    num_nodes self' = count_nodes r /\
    num_leaf_nodes self' = count_leaves r /\
    1 <= num_leaf_nodes self' <= num_nodes self'.
Proof.
  intros H0 H1 H. apply fit_counters in H as (r & Hr & HN & HL & HB).
  exists r. repeat split; try done; lia.
Qed.

Lemma grow_mono (rec rec' : DecisionTree -> Node -> result (DecisionTree * Node))
    self child res :
  (forall s c res0, rec s c = Ok res0 -> rec' s c = Ok res0) ->
  grow rec self child = Ok res -> grow rec' self child = Ok res.
Proof.
  unfold grow. intros Hrec H. bind_inv H. rewrite Ha. simpl.
  destruct (negb a && _check_criterion self child); eauto.
Qed.

Lemma _split_body_mono (rec rec' : DecisionTree -> Node -> result (DecisionTree * Node))
    self curr res :
  (forall s c res0, rec s c = Ok res0 -> rec' s c = Ok res0) ->
  _split_body rec self curr = Ok res -> _split_body rec' self curr = Ok res.
Proof.
  unfold _split_body. intros Hrec H.
  bind_inv H. rewrite Ha. simpl. bind_inv H. rewrite Ha0. simpl.
  destruct (_best_split a a0) as [lo [[pv v]|]]; simpl in *; [|done].
  bind_inv H. rewrite Ha1. simpl. bind_inv H. rewrite Ha2. simpl.
  destruct a2 as [nv0 nv1]. bind_inv H. destruct a2 as [s1 lc].
  rewrite (grow_mono rec rec' _ _ _ Hrec Ha3). simpl.
  bind_inv H. destruct a2 as [s2 rc].
  rewrite (grow_mono rec rec' _ _ _ Hrec Ha4). simpl. done.
Qed.

(** More fuel does not change what [_split] returns. *)
Lemma _split_mono fuel : forall fuel' self curr res,
  (fuel <= fuel')%nat ->
  _split fuel self curr = Ok res -> _split fuel' self curr = Ok res.
Proof.
  induction fuel as [|fuel IH]; intros fuel' self curr res Hle H; [discriminate|].
  destruct fuel' as [|fuel']; [lia|]. simpl in *.
  eapply _split_body_mono; [|exact H].
  intros s c res0. apply IH. lia.
Qed.

(** Two calls of [fit] on the same input, on instances that agree on the
    limits and on the counters, build the same tree. *)
Lemma fit_deterministic f1 f2 t1 t2 X0 y0 t1' t2' :
  max_depth t1 = max_depth t2 -> max_nodes t1 = max_nodes t2 ->
  max_leaf_nodes t1 = max_leaf_nodes t2 ->
  min_nodes_per_leaf t1 = min_nodes_per_leaf t2 ->
  num_nodes t1 = num_nodes t2 -> num_leaf_nodes t1 = num_leaf_nodes t2 ->
  fit f1 t1 X0 y0 = Ok t1' -> fit f2 t2 X0 y0 = Ok t2' ->
  t1' = t2'.
Proof.
  intros E1 E2 E3 E4 E5 E6 H1 H2.
  apply fit_inv in H1 as (Xv & yv & s1 & r1 & HX & Hy & _ & H1 & ->).
  apply fit_inv in H2 as (Xv' & yv' & s2 & r2 & HX' & Hy' & _ & H2 & ->).
  rewrite HX in HX'. rewrite Hy in Hy'. injection HX' as <-. injection Hy' as <-.
  assert (start t1 Xv yv = start t2 Xv yv) as Es
    by (unfold start; congruence).
  rewrite Es in H1.
  apply (_split_mono f1 (f1 `max` f2)%nat) in H1; [|lia].
  apply (_split_mono f2 (f1 `max` f2)%nat) in H2; [|lia].
  congruence.
Qed.

(** *** The shape of the nodes of a finished tree *)

Lemma nodes_unfold nd :
  nodes nd = nd :: from_option nodes [] (left nd) ++ from_option nodes [] (right nd).
Proof. by destruct nd as [? ? ? ? ? ? ? ? ? [?|] [?|]]. Qed.

Lemma Forall_nodes_inv (P : Node -> Prop) nd :
  Forall P (nodes nd) ->
  P nd /\ on_child (fun c => Forall P (nodes c)) (left nd) /\
  on_child (fun c => Forall P (nodes c)) (right nd).
Proof.
  rewrite nodes_unfold. intros [H0 [Hl Hr]%Forall_app]%Forall_cons.
  split; [done|]. split; [by destruct (left nd) | by destruct (right nd)].
Qed.

Lemma make_leaf_shape self nd :
  left nd = None -> right nd = None -> leaf_shape (make_leaf self nd).2.
Proof. intros Hl Hr. repeat split; try done. Qed.

Lemma split_shaped fuel : forall self curr self' curr',
  _split fuel self curr = Ok (self', curr') -> fresh curr ->
  prediction curr = None ->
  Forall shaped (nodes curr').
Proof.
  induction fuel as [|fuel IH]; intros self curr self' curr' H (Hl0 & Hr0 & Hlf) Hpr;
    [discriminate|].
  simpl in H; apply _split_body_inv in H;
    destruct H as [|? ? l pv v ds nv0 nv1 s1 lc s2 rc _ _ _ _ _ Hl Hr].
  - rewrite make_leaf_nodes by done. constructor; [|constructor].
    left. by apply make_leaf_shape.
  - assert (forall s c s' c', grow (_split fuel) s c = Ok (s', c') -> fresh c ->
        prediction c = None -> Forall shaped (nodes c')) as Hg.
    { intros s c s' c' G Hf Hp. grow_cases G; [eauto|].
      destruct Hf as (Hf1 & Hf2 & _). rewrite make_leaf_nodes by done.
      constructor; [|constructor]. left. by apply make_leaf_shape. }
    pose proof (grow_keeps _ _ _ _ _ Hl) as (_ & Sl & _).
    pose proof (grow_keeps _ _ _ _ _ Hr) as (_ & Sr & _).
    apply Hg in Hl, Hr; try apply new_Node_fresh; try done.
    simpl. constructor; [|by apply Forall_app].
    right. repeat split; simpl; eauto.
    exists lc, rc. simpl in Sl, Sr. rewrite Sl, Sr. repeat split; lia.
Qed.

(** X1. Every node of a tree that [fit] returns is either a leaf that
    holds a prediction and has no children, or a split node that holds a
    rule and has both children; the [split] attribute of a split node
    lists the sizes of its two children, which add up to its own size,
    and the size of every node is the number of its sample indices. *)
Theorem tree_shape fuel self X0 y0 self' :
  fit fuel self X0 y0 = Ok self' ->
  exists r, root self' = Some r /\
    forall nd, nd ∈ nodes r ->
      size nd = Z.of_nat (length (values nd)) /\
      ((is_leaf nd = true /\ left nd = None /\ right nd = None /\
        is_Some (prediction nd)) \/
       (is_leaf nd = false /\ prediction nd = None /\
        is_Some (loss nd) /\ is_Some (p nd) /\ is_Some (val nd) /\
        exists lc rc, left nd = Some lc /\ right nd = Some rc /\
          split nd = Some (size lc, size rc) /\ size nd = size lc + size rc)).
Proof.
  intros H. apply fit_inv in H as (Xv & yv & s & r & _ & _ & _ & H & ->).
  exists r; split; [done|].
  pose proof (split_shaped _ _ _ _ _ H (new_root_fresh _) eq_refl) as HS.
  assert (Forall sized (nodes r)) as HZ.
  { eapply split_sized; [exact H | apply new_root_fresh |].
    simpl. by rewrite length_seq. }
  rewrite Forall_forall in HS, HZ. intros nd Hnd.
  split; [apply (HZ nd Hnd) | apply (HS nd Hnd)].
Qed.

(** *** The partition made at every internal node *)

Lemma take_length {A : Type} (arr : option (list A)) idx xs :
  take arr idx = Ok xs -> length xs = length idx.
Proof.
  destruct arr as [a|]; [|discriminate]. simpl.
  intros H%collect_Forall2. symmetry. by eapply Forall2_length.
Qed.

(** One call of [_split] keeps the size and the sample indices of the
    node, and gives the node two children whenever the selector returns
    a rule on the node's samples. *)
Lemma split_follows_rule fuel self curr self' curr' :
  _split fuel self curr = Ok (self', curr') ->
  values curr' = values curr /\ size curr' = size curr /\
  forall Xc yc lo pv v,
    take (X self) (values curr) = Ok Xc ->
    take (y self) (values curr) = Ok yc ->
    _best_split Xc yc = (lo, Some (pv, v)) ->
    is_leaf curr' = is_leaf curr /\
    exists lc rc, left curr' = Some lc /\ right curr' = Some rc.
Proof.
  intros H. destruct fuel as [|fuel]; [discriminate|].
  simpl in H. apply _split_body_inv in H.
  destruct H as [Xc yc HXc Hyc Hnone
                |Xc yc l pv v ds nv0 nv1 s1 lc s2 rc HXc Hyc Hbs _ _ _ _].
  - do 2 (split; [done|]). intros Xc' yc' lo pv v EX Ey Hbs.
    rewrite HXc in EX. rewrite Hyc in Ey. injection EX as <-. injection Ey as <-.
    rewrite Hbs in Hnone. discriminate.
  - do 2 (split; [done|]). intros _ _ _ _ _ _ _ _. split; [done|].
    exists lc, rc. by split.
Qed.

(** C1. In every tree that [fit] returns, every internal node (a node
    that is not a leaf) has a left and a right child, and the children
    of a node hold the stable partition of the node's sample indices by
    the node's rule: the left child the indices whose row the rule
    sends left (decision false), the right child those it sends right
    (decision true), each in the order of the parent; the two are
    disjoint and together they cover the parent's indices.  The builder
    does split: the root is an internal node whenever the selector
    returns a rule on the training data. *)
Theorem index_partition fuel self X0 y0 self' :
  fit fuel self X0 y0 = Ok self' ->
  exists r, root self' = Some r /\
    (forall Xc yc lo pv v,
       take (X self') (values r) = Ok Xc ->
       take (y self') (values r) = Ok yc ->
       _best_split Xc yc = (lo, Some (pv, v)) ->
       is_leaf r = false) /\
    forall nd, nd ∈ nodes r ->
      (is_leaf nd = false ->
         exists lc rc, left nd = Some lc /\ right nd = Some rc) /\
      forall lc rc, left nd = Some lc -> right nd = Some rc ->
        values lc = filter (fun i => side self' nd i = Some false) (values nd) /\
        values rc = filter (fun i => side self' nd i = Some true) (values nd) /\
        sublist (values lc) (values nd) /\
        sublist (values rc) (values nd) /\
        (forall i, i ∈ values nd <-> i ∈ values lc \/ i ∈ values rc) /\
        (forall i, i ∈ values lc -> i ∉ values rc) /\
        (forall i, i ∈ values nd ->
           (i ∈ values lc <-> side self' nd i = Some false) /\
           (i ∈ values rc <-> side self' nd i = Some true)).
Proof.
  intros Hfit.
  destruct (children_partition _ _ _ _ _ Hfit) as (r & Hr & HP).
  exists r; split; [done|].
  apply fit_inv in Hfit as (Xv & yv & s & r0 & _ & _ & _ & H & ->).
  simpl in Hr. injection Hr as ->.
  pose proof (split_same_setup _ _ _ _ _ H) as (HX & Hy & _).
  pose proof (split_follows_rule _ _ _ _ _ H) as (Hv & _ & Hrule).
  split.
  - intros Xc yc lo pv v EX Ey Hbs. simpl in EX, Ey.
    rewrite HX, Hv in EX. rewrite Hy, Hv in Ey.
    by destruct (Hrule _ _ _ _ _ EX Ey Hbs) as [-> _].
  - pose proof (split_shaped _ _ _ _ _ H (new_root_fresh _) eq_refl) as HS.
    rewrite Forall_forall in HS. intros nd Hnd.
    split; [|intros lc rc Hl Hr; by apply (HP nd lc rc)].
    intros Hnl.
    destruct (HS nd Hnd) as [(Hl & _)|(_ & _ & _ & _ & _ & lc & rc & ? & ? & _)].
    + congruence.
    + by exists lc, rc.
Qed.

(** *** The predictor on a finished tree *)

Lemma walk_unfold nd (x : row) :
  walk nd x =
  if is_leaf nd then Ok (prediction nd)
  else
    let! d := decision nd x in
    match (if d then right nd else left nd) with
    | Some c => walk c x
    | None => Raise AttributeError
    end.
Proof. by destruct nd. Qed.

Lemma nodes_below nd c x :
  left nd = Some c \/ right nd = Some c -> x ∈ nodes c -> x ∈ nodes nd.
Proof.
  intros Hc Hx. rewrite nodes_unfold. right. apply elem_of_app.
  destruct Hc as [-> | ->]; [left | right]; done.
Qed.

Lemma leaves_below nd c x :
  left nd = Some c \/ right nd = Some c -> x ∈ leaves c -> x ∈ leaves nd.
Proof.
  unfold leaves. rewrite !list_elem_of_filter. intros Hc [? ?].
  split; [done|]. by eapply nodes_below.
Qed.

Lemma leaves_leaf nd : leaf_shape nd -> leaves nd = [nd].
Proof.
  intros (Hlf & Hl & Hr & _). unfold leaves.
  rewrite nodes_unfold, Hl, Hr. simpl. by rewrite filter_cons_True, filter_nil.
Qed.

Lemma leaves_split nd lc rc :
  is_leaf nd = false -> left nd = Some lc -> right nd = Some rc ->
  leaves nd = leaves lc ++ leaves rc.
Proof.
  intros Hlf Hl Hr. unfold leaves. rewrite (nodes_unfold nd), Hl, Hr. simpl.
  rewrite filter_cons_False by congruence. apply filter_app.
Qed.

(** The walk from a node of a finished tree ends in a leaf below it. *)
Lemma walk_total nd : forall x : row,
  Forall shaped (nodes nd) ->
  exists lf v, walk nd x = Ok (Some v) /\ lf ∈ leaves nd /\ prediction lf = Some v.
Proof.
  induction nd as [nd IHl IHr] using Node_induction. intros x HS.
  apply Forall_nodes_inv in HS as (H0 & Hl & Hr).
  rewrite walk_unfold. destruct H0 as [Hleaf | Hsplit].
  - pose proof Hleaf as (Hlf & _ & _ & [v Hv]). rewrite Hlf, Hv.
    exists nd, v. split; [done|]. split; [|done].
    rewrite leaves_leaf by done. left.
  - destruct Hsplit as (Hlf & _ & _ & [pv Hp] & [tv Hv] & lc & rc & El & Er & _).
    rewrite Hlf. unfold decision. rewrite Hp, Hv. simpl.
    rewrite El, Er in *. simpl in *.
    destruct (decide_rule pv tv x).
    + destruct (IHr x Hr) as (lf & v & Hw & Hin & Hpr).
      exists lf, v. split; [done|]. split; [|done].
      eapply leaves_below; [|exact Hin]. by right.
    + destruct (IHl x Hl) as (lf & v & Hw & Hin & Hpr).
      exists lf, v. split; [done|]. split; [|done].
      eapply leaves_below; [|exact Hin]. by left.
Qed.

Lemma collect_pointwise {A B : Type} (f : A -> result B) (Q : B -> Prop) xs :
  (forall x, exists b, f x = Ok b /\ Q b) ->
  exists bs, collect f xs = Ok bs /\ length bs = length xs /\ Forall Q bs.
Proof.
  intros Hf. induction xs as [|x xs (bs & Hbs & Hlen & HQ)]; simpl.
  - exists []. by repeat split.
  - destruct (Hf x) as (b & Hb & Hq). rewrite Hb, Hbs. simpl.
    exists (b :: bs). repeat split; simpl; [congruence|by constructor].
Qed.

(** X2. On a tree that [fit] has returned, [predict] never raises once
    the query is validated: it returns one prediction per query row, and
    each is the prediction stored on a leaf of the tree. *)
Theorem predict_fitted fuel self X0 y0 self' Xq Xv :
  fit fuel self X0 y0 = Ok self' ->
  validate_feature_matrix Xq = Ok Xv ->
  exists r preds,
    root self' = Some r /\ predict self' Xq = Ok preds /\
    length preds = length Xv /\
    Forall (fun pr => exists lf v,
              pr = Some v /\ lf ∈ leaves r /\ prediction lf = Some v) preds.
Proof.
  intros H HXq. apply fit_inv in H as (Xt & yt & s & r & _ & _ & _ & H & ->).
  pose proof (split_shaped _ _ _ _ _ H (new_root_fresh _) eq_refl) as HS.
  unfold predict. rewrite HXq. simpl.
  destruct (collect_pointwise (predict_row (set_root s r))
              (fun pr => exists lf v,
                 pr = Some v /\ lf ∈ leaves r /\ prediction lf = Some v) Xv)
    as (preds & Hp & Hlen & HQ).
  { intros x. unfold predict_row. simpl.
    destruct (walk_total r x HS) as (lf & v & Hw & Hin & Hpr).
    exists (Some v). split; [done|]. by exists lf, v. }
  by exists r, preds.
Qed.

(** On a node of a finished tree, the walk of the row of a training
    sample that the node holds ends in a leaf that holds the sample. *)
Lemma walk_training self nd : forall (a : list row) i x,
  X self = Some a -> a !! i = Some x ->
  Forall shaped (nodes nd) ->
  Forall (fun c => forall lc rc, left c = Some lc -> right c = Some rc ->
            partitions self c lc rc) (nodes nd) ->
  i ∈ values nd ->
  exists lf v, walk nd x = Ok (Some v) /\ lf ∈ leaves nd /\
    i ∈ values lf /\ prediction lf = Some v.
Proof.
  induction nd as [nd IHl IHr] using Node_induction. intros a i x HX Hi HS HP Hin.
  apply Forall_nodes_inv in HS as (H0 & Hl & Hr).
  apply Forall_nodes_inv in HP as (P0 & Pl & Pr).
  rewrite walk_unfold. destruct H0 as [Hleaf | Hsplit].
  - pose proof Hleaf as (Hlf & _ & _ & [v Hv]). rewrite Hlf, Hv.
    exists nd, v. split; [done|]. split; [|done].
    rewrite leaves_leaf by done. left.
  - destruct Hsplit as (Hlf & _ & _ & [pv Hp] & [tv Hv] & lc & rc & El & Er & _).
    destruct (P0 lc rc El Er) as (F1 & F2 & _).
    rewrite Hlf. unfold decision. rewrite Hp, Hv. simpl.
    rewrite El, Er in *. simpl in *.
    assert (side self nd i = Some (decide_rule pv tv x)) as Hside
      by (eapply side_of_row; eauto).
    destruct (decide_rule pv tv x).
    + destruct (IHr a i x HX Hi Hr Pr) as (lf & v & Hw & Hlfin & Hiv & Hpr).
      { rewrite F2. apply list_elem_of_filter. by split. }
      exists lf, v. split; [done|]. split; [|done].
      eapply leaves_below; [|exact Hlfin]. by right.
    + destruct (IHl a i x HX Hi Hl Pl) as (lf & v & Hw & Hlfin & Hiv & Hpr).
      { rewrite F1. apply list_elem_of_filter. by split. }
      exists lf, v. split; [done|]. split; [|done].
      eapply leaves_below; [|exact Hlfin]. by left.
Qed.

(** X3. After [fit], the walk of [predict] on the feature row of the
    training sample with index [i] ends in a leaf whose sample indices
    contain [i], and yields that leaf's prediction. *)
Theorem predict_training_row fuel self X0 y0 self' Xv i x :
  fit fuel self X0 y0 = Ok self' ->
  validate_feature_matrix X0 = Ok Xv ->
  Xv !! i = Some x ->
  exists lf v,
    predict_row self' x = Ok (Some v) /\
    (exists r, root self' = Some r /\ lf ∈ leaves r) /\
    i ∈ values lf /\ prediction lf = Some v.
Proof.
  intros H HXv Hi. apply fit_inv in H as (Xt & yt & s & r & HXt & _ & _ & H & ->).
  rewrite HXv in HXt. injection HXt as <-.
  pose proof (split_shaped _ _ _ _ _ H (new_root_fresh _) eq_refl) as HS.
  pose proof (split_partitions _ _ _ _ _ H (new_root_fresh _)) as HP.
  pose proof (split_keeps _ _ _ _ _ H) as (Hvs & _).
  destruct (walk_training (start self Xv yt) r Xv i x eq_refl Hi HS HP)
    as (lf & v & Hw & Hin & Hiv & Hpr).
  { rewrite Hvs. simpl. apply elem_of_seq. apply lookup_lt_Some in Hi. lia. }
  exists lf, v. unfold predict_row. simpl. split; [done|].
  split; [by exists r|done].
Qed.

(** *** The leaves and the counts of a finished tree *)

Lemma side_partition_perm self nd idx :
  Forall (fun i => is_Some (side self nd i)) idx ->
  filter (fun i => side self nd i = Some false) idx ++
  filter (fun i => side self nd i = Some true) idx ≡ₚ idx.
Proof.
  induction 1 as [|i idx [d Hd] _ IH]; [done|].
  rewrite !filter_cons, Hd. destruct d; repeat case_decide; try congruence.
  - rewrite <- Permutation_middle. by constructor.
  - simpl. by constructor.
Qed.

Lemma leaves_cover self nd :
  Forall shaped (nodes nd) ->
  Forall (fun c => forall lc rc, left c = Some lc -> right c = Some rc ->
            partitions self c lc rc) (nodes nd) ->
  concat (values <$> leaves nd) ≡ₚ values nd.
Proof.
  induction nd as [nd IHl IHr] using Node_induction. intros HS HP.
  apply Forall_nodes_inv in HS as (H0 & Hl & Hr).
  apply Forall_nodes_inv in HP as (P0 & Pl & Pr).
  destruct H0 as [Hleaf | Hsplit].
  - rewrite leaves_leaf by done. simpl. by rewrite app_nil_r.
  - destruct Hsplit as (Hlf & _ & _ & _ & _ & lc & rc & El & Er & _).
    destruct (P0 lc rc El Er) as (F1 & F2 & F3).
    rewrite (leaves_split nd lc rc) by done.
    rewrite El, Er in *. simpl in *.
    rewrite fmap_app, concat_app, (IHl Hl Pl), (IHr Hr Pr), F1, F2.
    by apply side_partition_perm.
Qed.

(** X4. The leaves of a tree that [fit] returns partition the training
    set: their sample indices, taken together, are a rearrangement of
    [0 .. n-1], so every training sample lies in exactly one leaf. *)
Theorem leaves_partition fuel self X0 y0 self' :
  fit fuel self X0 y0 = Ok self' ->
  exists r n', root self' = Some r /\ n self' = Some n' /\
    concat (values <$> leaves r) ≡ₚ seq 0 n'.
Proof.
  intros H. apply fit_inv in H as (Xt & yt & s & r & _ & _ & _ & H & ->).
  pose proof (split_shaped _ _ _ _ _ H (new_root_fresh _) eq_refl) as HS.
  pose proof (split_partitions _ _ _ _ _ H (new_root_fresh _)) as HP.
  pose proof (split_keeps _ _ _ _ _ H) as (Hvs & _).
  pose proof (split_same_setup _ _ _ _ _ H) as (_ & _ & Hn & _).
  exists r, (length Xt). split; [done|]. split; [simpl; by rewrite Hn|].
  rewrite (leaves_cover _ r HS HP), Hvs. done.
Qed.

Lemma counts_shaped nd :
  Forall shaped (nodes nd) ->
  count_nodes nd = Z.of_nat (length (nodes nd)) /\
  count_leaves nd = Z.of_nat (length (leaves nd)) /\
  count_nodes nd = 2 * count_leaves nd - 1.
Proof.
  induction nd as [nd IHl IHr] using Node_induction. intros HS.
  apply Forall_nodes_inv in HS as (H0 & Hl & Hr).
  destruct H0 as [Hleaf | Hsplit].
  - rewrite leaves_leaf by done. destruct Hleaf as (Hlf & El & Er & _).
    rewrite nodes_unfold, El, Er. destruct nd; simpl in *. subst.
    rewrite Hlf. simpl. lia.
  - destruct Hsplit as (Hlf & _ & _ & _ & _ & lc & rc & El & Er & _).
    rewrite (leaves_split nd lc rc) by done.
    rewrite nodes_unfold, El, Er in *. simpl in *.
    destruct (IHl Hl) as (A1 & A2 & A3). destruct (IHr Hr) as (B1 & B2 & B3).
    destruct nd; simpl in *. subst. rewrite Hlf. rewrite !length_app. lia.
Qed.

(** X5. A tree that [fit] returns has one node less than twice its
    leaves; the manual counts are the lengths of the node and leaf
    traversals, and [fit] advances [num_nodes] (the result of
    [__len__]) and [num_leaf_nodes] by exactly these counts. *)
Theorem nodes_and_leaves fuel self X0 y0 self' :
  fit fuel self X0 y0 = Ok self' ->
  exists r, root self' = Some r /\
    count_nodes r = Z.of_nat (length (nodes r)) /\
    count_leaves r = Z.of_nat (length (leaves r)) /\
    count_nodes r = 2 * count_leaves r - 1 /\
    __len__ self' = __len__ self + count_nodes r /\
    num_leaf_nodes self' = num_leaf_nodes self + count_leaves r.
Proof.
  intros H. destruct (fit_counters _ _ _ _ _ H) as (r & Hr & HN & HL & _).
  exists r. split; [done|].
  apply fit_inv in H as (Xt & yt & s & r' & _ & _ & _ & H & ->).
  simpl in Hr. injection Hr as ->.
  pose proof (split_shaped _ _ _ _ _ H (new_root_fresh _) eq_refl) as HS.
  destruct (counts_shaped r HS) as (C1 & C2 & C3). by repeat split.
Qed.

(** *** Depths and sample indices, whatever the limits *)

Lemma split_child_depths fuel : forall self curr self' curr',
  _split fuel self curr = Ok (self', curr') -> fresh curr ->
  Forall child_depths (nodes curr').
Proof.
  induction fuel as [|fuel IH]; intros self curr self' curr' H (Hl0 & Hr0 & Hlf);
    [discriminate|].
  simpl in H; apply _split_body_inv in H;
    destruct H as [|? ? l pv v ds nv0 nv1 s1 lc s2 rc _ _ _ _ _ Hl Hr].
  - rewrite make_leaf_nodes by done. constructor; [|constructor].
    intros c [E|E]; simpl in E; congruence.
  - assert (forall s c s' c', grow (_split fuel) s c = Ok (s', c') -> fresh c ->
        Forall child_depths (nodes c')) as Hg.
    { intros s c s' c' G Hf. grow_cases G; [eauto|].
      destruct Hf as (Hf1 & Hf2 & _). rewrite make_leaf_nodes by done.
      constructor; [|constructor]. intros c0 [E|E]; simpl in E; congruence. }
    pose proof (grow_keeps _ _ _ _ _ Hl) as (_ & _ & Dl).
    pose proof (grow_keeps _ _ _ _ _ Hr) as (_ & _ & Dr).
    apply Hg in Hl, Hr; try apply new_Node_fresh.
    simpl. constructor; [|by apply Forall_app].
    intros c [[= <-]|[= <-]]; simpl; [rewrite Dl | rewrite Dr]; done.
Qed.

Lemma depth_range nd :
  Forall child_depths (nodes nd) ->
  (forall x, x ∈ nodes nd -> depth nd <= depth x <= depth nd + height nd - 1) /\
  (exists x, x ∈ nodes nd /\ depth x = depth nd + height nd - 1).
Proof.
  induction nd as [nd IHl IHr] using Node_induction. intros HD.
  apply Forall_nodes_inv in HD as (H0 & Hl & Hr).
  rewrite nodes_unfold.
  destruct nd as [sz vs d ty lo p' v sp pr [lc|] [rc|]]; simpl in *.
  - destruct (IHl Hl) as (Al & xl & Hxl & El).
    destruct (IHr Hr) as (Ar & xr & Hxr & Er).
    pose proof (H0 lc (or_introl eq_refl)) as Dl.
    pose proof (H0 rc (or_intror eq_refl)) as Dr. simpl in Dl, Dr.
    pose proof (height_pos lc). pose proof (height_pos rc). split.
    + intros x [->|[Hx|Hx]%elem_of_app]%elem_of_cons; simpl; [lia| |].
      * specialize (Al x Hx). lia.
      * specialize (Ar x Hx). lia.
    + destruct (Z.le_ge_cases (height lc) (height rc)).
      * exists xr. split; [right; apply elem_of_app; by right|]. lia.
      * exists xl. split; [right; apply elem_of_app; by left|]. lia.
  - destruct (IHl Hl) as (Al & xl & Hxl & El).
    pose proof (H0 lc (or_introl eq_refl)) as Dl. simpl in Dl.
    pose proof (height_pos lc). split.
    + intros x [->|[Hx|Hx]%elem_of_app]%elem_of_cons; simpl; [lia| |].
      * specialize (Al x Hx). lia.
      * by apply elem_of_nil in Hx.
    + exists xl. split; [right; apply elem_of_app; by left|]. lia.
  - destruct (IHr Hr) as (Ar & xr & Hxr & Er).
    pose proof (H0 rc (or_intror eq_refl)) as Dr. simpl in Dr.
    pose proof (height_pos rc). split.
    + intros x [->|Hx]%elem_of_cons; simpl; [lia|].
      specialize (Ar x Hx). lia.
    + exists xr. split; [by right|]. lia.
  - split.
    + intros x [->|Hx]%elem_of_cons; simpl; [lia|]. by apply elem_of_nil in Hx.
    + eexists. split; [left|]. simpl. lia.
Qed.

(** X6. Whatever the limits, the root of a tree that [fit] returns has
    depth 1 and every child has its parent's depth plus 1; the depths
    of the nodes range from 1 to the number of levels of the tree, and
    some node has the largest depth. *)
Theorem depth_invariant fuel self X0 y0 self' :
  fit fuel self X0 y0 = Ok self' ->
  exists r, root self' = Some r /\ depth r = 1 /\
    (forall nd, nd ∈ nodes r ->
       1 <= depth nd <= height r /\
       forall c, left nd = Some c \/ right nd = Some c -> depth c = depth nd + 1) /\
    (exists nd, nd ∈ nodes r /\ depth nd = height r).
Proof.
  intros H. apply fit_inv in H as (Xt & yt & s & r & _ & _ & _ & H & ->).
  exists r; split; [done|].
  pose proof (split_keeps _ _ _ _ _ H) as (_ & _ & Hd). simpl in Hd.
  split; [done|].
  pose proof (split_child_depths _ _ _ _ _ H (new_root_fresh _)) as HD.
  destruct (depth_range r HD) as (Hrange & x & Hx & Ex). split.
  - intros nd Hnd. split; [specialize (Hrange nd Hnd); lia|].
    rewrite Forall_forall in HD. exact (HD nd Hnd).
  - exists x. split; [done|]. lia.
Qed.

Lemma values_within self nd :
  Forall shaped (nodes nd) ->
  Forall (fun c => forall lc rc, left c = Some lc -> right c = Some rc ->
            partitions self c lc rc) (nodes nd) ->
  forall x, x ∈ nodes nd -> sublist (values x) (values nd).
Proof.
  induction nd as [nd IHl IHr] using Node_induction. intros HS HP x Hx.
  apply Forall_nodes_inv in HS as (H0 & Hl & Hr).
  apply Forall_nodes_inv in HP as (P0 & Pl & Pr).
  rewrite nodes_unfold in Hx. apply elem_of_cons in Hx as [->|Hx]; [done|].
  destruct H0 as [(_ & El & Er & _) | Hsplit].
  - rewrite El, Er in Hx. by apply elem_of_nil in Hx.
  - destruct Hsplit as (_ & _ & _ & _ & _ & lc & rc & El & Er & _).
    destruct (P0 lc rc El Er) as (F1 & F2 & _).
    rewrite El, Er in *. simpl in *.
    apply elem_of_app in Hx as [Hx|Hx].
    + transitivity (values lc); [by apply IHl|]. rewrite F1. apply sublist_filter.
    + transitivity (values rc); [by apply IHr|]. rewrite F2. apply sublist_filter.
Qed.

(** X7. After [fit] on [n] validated rows the root holds the indices
    [0 .. n-1] in order and has size [n], and the sample indices of
    every node are an order-preserving selection of them: increasing,
    without repetition, and all below [n]. *)
Theorem sample_indices_in_range fuel self X0 y0 self' :
  fit fuel self X0 y0 = Ok self' ->
  exists r n', root self' = Some r /\ n self' = Some n' /\
    values r = seq 0 n' /\ size r = Z.of_nat n' /\
    forall nd, nd ∈ nodes r ->
      sublist (values nd) (seq 0 n') /\ NoDup (values nd) /\
      forall i, i ∈ values nd -> (i < n')%nat.
Proof.
  intros H. apply fit_inv in H as (Xt & yt & s & r & _ & _ & _ & H & ->).
  pose proof (split_shaped _ _ _ _ _ H (new_root_fresh _) eq_refl) as HS.
  pose proof (split_partitions _ _ _ _ _ H (new_root_fresh _)) as HP.
  pose proof (split_keeps _ _ _ _ _ H) as (Hvs & Hsz & _).
  pose proof (split_same_setup _ _ _ _ _ H) as (_ & _ & Hn & _).
  exists r, (length Xt). split; [done|]. split; [simpl; by rewrite Hn|].
  split; [done|]. split; [done|].
  intros nd Hnd.
  pose proof (values_within _ r HS HP nd Hnd) as Hsub. rewrite Hvs in Hsub.
  simpl in Hsub. split; [done|]. split.
  - eapply sublist_NoDup; [apply NoDup_seq | exact Hsub].
  - intros i Hi. apply (sublist_subseteq _ _ Hsub) in Hi.
    apply elem_of_seq in Hi. lia.
Qed.

(** *** What the built tree does not depend on *)

Lemma next_values_ext self self' nd idx :
  X self = X self' -> next_values self nd idx = next_values self' nd idx.
Proof. intros E. induction idx as [|i idx IH]; simpl; [done|]. by rewrite E, IH. Qed.

Section Simulation.

(** A relation between two tree objects that the builder's updates
    keep, and under which the builder reads the same. *)
Variable R : DecisionTree -> DecisionTree -> Prop.
Hypothesis R_data : forall s1 s2, R s1 s2 -> X s1 = X s2 /\ y s1 = y s2.
Hypothesis R_check : forall s1 s2 nd,
  R s1 s2 -> _check_criterion s1 nd = _check_criterion s2 nd.
Hypothesis R_nodes : forall s1 s2,
  R s1 s2 -> R (incr_num_nodes s1) (incr_num_nodes s2).
Hypothesis R_leaves : forall s1 s2,
  R s1 s2 -> R (incr_num_leaf_nodes s1) (incr_num_leaf_nodes s2).
Hypothesis Hleaf : leaf_from_data.

Lemma make_leaf_sim s1 s2 nd :
  R s1 s2 ->
  (make_leaf s2 nd).2 = (make_leaf s1 nd).2 /\
  R (incr_num_leaf_nodes s1) (incr_num_leaf_nodes s2).
Proof.
  intros HR. destruct (R_data _ _ HR) as [EX Ey]. split; [|by apply R_leaves].
  unfold make_leaf. cbv zeta. simpl.
  by rewrite (Hleaf s2 s1 (set_type nd "leaf") (eq_sym EX) (eq_sym Ey)).
Qed.

Lemma grow_sim (rec : DecisionTree -> Node -> result (DecisionTree * Node))
    s1 s2 c s1' c' :
  (forall t1 t2 d t1' d', R t1 t2 -> rec t1 d = Ok (t1', d') ->
     exists t2', rec t2 d = Ok (t2', d') /\ R t1' t2') ->
  R s1 s2 -> grow rec s1 c = Ok (s1', c') ->
  exists s2', grow rec s2 c = Ok (s2', c') /\ R s1' s2'.
Proof.
  intros Hrec HR H. destruct (R_data _ _ HR) as [EX Ey].
  unfold grow, _is_pure in *. rewrite <- Ey, <- (R_check _ _ c HR).
  bind_inv H. rewrite Ha. simpl.
  destruct (negb a && _check_criterion s1 c); [eauto|].
  assert (s1' = incr_num_leaf_nodes s1 /\ c' = (make_leaf s1 c).2) as [-> ->]
    by (by inversion H).
  destruct (make_leaf_sim s1 s2 c HR) as [E HR'].
  exists (incr_num_leaf_nodes s2). split; [|done].
  by rewrite <- E.
Qed.

Lemma split_sim fuel : forall s1 s2 c s1' c',
  R s1 s2 -> _split fuel s1 c = Ok (s1', c') ->
  exists s2', _split fuel s2 c = Ok (s2', c') /\ R s1' s2'.
Proof.
  induction fuel as [|fuel IH]; intros s1 s2 c s1' c' HR H; [discriminate|].
  destruct (R_data _ _ HR) as [EX Ey].
  simpl in *. unfold _split_body in *. rewrite <- EX, <- Ey.
  bind_inv H. rewrite Ha. simpl. bind_inv H. rewrite Ha0. simpl.
  destruct (_best_split a a0) as [lo [[pv v]|]]; simpl in *.
  - bind_inv H. rewrite Ha1. simpl.
    rewrite <- (next_values_ext s1 s2) by done.
    bind_inv H. rewrite Ha2. simpl. destruct a2 as [nv0 nv1].
    bind_inv H. destruct a2 as [u1 lc].
    destruct (grow_sim (_split fuel) _ _ _ _ _ IH (R_nodes _ _ HR) Ha3)
      as (u2 & -> & HR1). simpl.
    bind_inv H. destruct a2 as [w1 rc].
    destruct (grow_sim (_split fuel) _ _ _ _ _ IH (R_nodes _ _ HR1) Ha4)
      as (w2 & -> & HR2). simpl.
    injection H as <- <-. eauto.
  - assert (s1' = incr_num_leaf_nodes s1 /\ c' = (make_leaf s1 c).2) as [-> ->]
      by (by inversion H).
    destruct (make_leaf_sim s1 s2 c HR) as [E HR'].
    exists (incr_num_leaf_nodes s2). split; [|done]. by rewrite <- E.
Qed.

End Simulation.

Lemma check_same_limits (s1 s2 : DecisionTree) nd :
  same_limits_and_counters s1 s2 ->
  _check_criterion s1 nd = _check_criterion s2 nd.
Proof.
  intros (_ & _ & E1 & E2 & E3 & E4 & E5). unfold _check_criterion.
  by rewrite E1, E2, E3, E4, E5.
Qed.

Lemma check_unlimited (s1 s2 : DecisionTree) nd :
  both_unlimited s1 s2 ->
  _check_criterion s1 nd = _check_criterion s2 nd.
Proof.
  intros (_ & _ & E1 & E2 & E3 & E4 & E5). unfold _check_criterion.
  by rewrite E1, E2, E3, E4, E5.
Qed.

Lemma split_sim_counters fuel (s1 s2 : DecisionTree) c s1' c' :
  leaf_from_data -> same_limits_and_counters s1 s2 ->
  _split fuel s1 c = Ok (s1', c') ->
  exists s2', _split fuel s2 c = Ok (s2', c') /\ same_limits_and_counters s1' s2'.
Proof.
  intros Hleaf. apply (split_sim same_limits_and_counters).
  - by intros t1 t2 (? & ? & _).
  - intros t1 t2 nd. apply check_same_limits.
  - intros t1 t2 (? & ? & ? & ? & ? & ? & ?). repeat split; simpl; congruence.
  - intros t1 t2 (? & ? & ? & ? & ? & ? & ?). repeat split; simpl; congruence.
  - exact Hleaf.
Qed.

Lemma split_sim_unlimited fuel (s1 s2 : DecisionTree) c s1' c' :
  leaf_from_data -> both_unlimited s1 s2 ->
  _split fuel s1 c = Ok (s1', c') ->
  exists s2', _split fuel s2 c = Ok (s2', c') /\ both_unlimited s1' s2'.
Proof.
  intros Hleaf. apply (split_sim both_unlimited).
  - by intros t1 t2 (? & ? & _).
  - intros t1 t2 nd. apply check_unlimited.
  - intros t1 t2 (? & ? & ? & ? & ? & ? & ?). repeat split; simpl; congruence.
  - intros t1 t2 (? & ? & ? & ? & ? & ? & ?). repeat split; simpl; congruence.
  - exact Hleaf.
Qed.

(** X8. [min_nodes_per_leaf] is never consulted: when the leaf
    evaluation reads only the training data and the node, two trees
    constructed with the same limits and different values of
    [min_nodes_per_leaf] are fitted to the same tree, with the same
    counters. *)
Theorem min_nodes_per_leaf_ignored fuel md mn ml m1 m2 X0 y0 t1 :
  leaf_from_data ->
  fit fuel (__init__ md mn ml m1) X0 y0 = Ok t1 ->
  exists t2, fit fuel (__init__ md mn ml m2) X0 y0 = Ok t2 /\
    root t2 = root t1 /\ num_nodes t2 = num_nodes t1 /\
    num_leaf_nodes t2 = num_leaf_nodes t1.
Proof.
  intros Hleaf H.
  apply fit_inv in H as (Xv & yv & s & r & HX & Hy & Hc & H & ->).
  rewrite fit_unfold, HX, Hy, Hc. simpl.
  destruct (split_sim_counters fuel (start (__init__ md mn ml m1) Xv yv)
              (start (__init__ md mn ml m2) Xv yv) _ _ _ Hleaf
              ltac:(by repeat split) H) as (s2' & -> & HR).
  simpl. eexists. split; [done|]. simpl.
  destruct HR as (_ & _ & _ & _ & _ & E1 & E2). by repeat split.
Qed.

(** X9. Without a limit on the nodes and on the leaves the counters
    are not consulted: when the leaf evaluation reads only the training
    data and the node, a second [fit] on the same instance and input
    rebuilds the same tree, although the counters it starts from are
    those the first call left. *)
Theorem refit_unlimited fuel self X0 y0 t1 :
  leaf_from_data ->
  max_nodes self = inf -> max_leaf_nodes self = inf ->
  fit fuel self X0 y0 = Ok t1 ->
  exists t2, fit fuel t1 X0 y0 = Ok t2 /\ root t2 = root t1.
Proof.
  intros Hleaf Hmn Hml H.
  apply fit_inv in H as (Xv & yv & s & r & HX & Hy & Hc & H & ->).
  pose proof (split_same_setup _ _ _ _ _ H) as (_ & _ & _ & _ & D1 & D2 & D3 & _).
  simpl in D1, D2, D3.
  rewrite fit_unfold, HX, Hy, Hc. simpl.
  destruct (split_sim_unlimited fuel (start self Xv yv)
              (start (set_root s r) Xv yv) _ _ _ Hleaf
              ltac:(repeat split; simpl; congruence) H) as (s2' & -> & HR).
  simpl. eauto.
Qed.

(** *** The limit on the nodes *)

(** The nodes under a node that [_split] has processed, against the
    nodes created before and the levels below the node. *)
Lemma split_nodes fuel : forall self curr self' curr' N,
  _split fuel self curr = Ok (self', curr') -> fresh curr ->
  max_nodes self = fin N ->
  count_nodes curr' <= 1 + Z.max (N - num_nodes self) 0 + 2 * (height curr' - 1).
Proof.
  induction fuel as [|fuel IH]; intros self curr self' curr' N H (Hl0 & Hr0 & Hlf) HN;
    [discriminate|].
  simpl in H; apply _split_body_inv in H;
    destruct H as [|? ? l pv v ds nv0 nv1 s1 lc s2 rc _ _ _ _ _ Hl Hr].
  - destruct (make_leaf_counts self curr Hl0 Hr0) as (-> & _ & ->). lia.
  - assert (forall s c s' c', grow (_split fuel) s c = Ok (s', c') -> fresh c ->
        max_nodes s = fin N ->
        (count_nodes c' = 1 /\ height c' = 1) \/
        (num_nodes s < N /\
         count_nodes c' <= 1 + (N - num_nodes s) + 2 * (height c' - 1))) as Hg.
    { intros s c s' c' G Hf HNs. grow_cases G.
      - right. apply grow_rec_check, check_true in Hcheck as (_ & Hlt & _).
        rewrite HNs in Hlt. simpl in Hlt. apply Z.ltb_lt in Hlt.
        split; [done|]. pose proof (IH _ _ _ _ N G Hf HNs). lia.
      - left. destruct Hf as (Hf1 & Hf2 & _).
        by destruct (make_leaf_counts s c Hf1 Hf2) as (-> & _ & ->). }
    pose proof (grow_same_setup _ _ _ _ _ Hl) as (_ & _ & _ & _ & _ & HN1 & _).
    pose proof (grow_counters _ _ _ _ _ Hl (new_Node_fresh _ _ _)) as (N1 & _ & B1).
    pose proof (grow_counters _ _ _ _ _ Hr (new_Node_fresh _ _ _)) as (_ & _ & B2).
    apply Hg in Hl, Hr; try apply new_Node_fresh; try done;
      [|simpl in *; congruence].
    pose proof (height_pos lc). pose proof (height_pos rc).
    simpl in N1, Hl, Hr.
    destruct curr; simpl in *. lia.
Qed.

(** X10. On a tree that has created no node before, [fit] with
    [max_nodes = N] for a positive [N] returns a tree with at most
    [N + 2 * (h - 1)] nodes, [h] being the number of levels of the tree:
    the limit only stops a child from being split once [N] nodes exist;
    the root is split without consulting it and both children of a
    split node are always created. *)
Theorem node_limit fuel self X0 y0 self' N :
  0 < N -> max_nodes self = fin N -> num_nodes self = 0 ->
  fit fuel self X0 y0 = Ok self' ->
  exists r, root self' = Some r /\
    count_nodes r <= N + 2 * (height r - 1) /\
    __len__ self' = count_nodes r.
Proof.
  intros HN Hmax H0 H.
  apply fit_inv in H as (Xv & yv & s & r & _ & _ & _ & H & ->).
  exists r; split; [done|].
  pose proof (split_nodes _ _ _ _ _ N H (new_root_fresh _) Hmax) as HB.
  pose proof (split_counters _ _ _ _ _ H (new_root_fresh _)) as (HC & _ & _).
  unfold __len__. simpl in *. lia.
Qed.

(** *** The only failure of the builder *)

Lemma split_safe fuel : forall self curr a b,
  X self = Some a -> y self = Some b ->
  Forall (fun i => (i < length a)%nat /\ (i < length b)%nat) (values curr) ->
  returns_or_overflows (_split fuel self curr).
Proof.
  induction fuel as [|fuel IH]; intros self curr a b HX Hy Hin; [by right|].
  assert (Forall (fun i => (i < length a)%nat) (values curr)) as Hina
    by (eapply Forall_impl; [exact Hin|]; simpl; tauto).
  assert (Forall (fun i => (i < length b)%nat) (values curr)) as Hinb
    by (eapply Forall_impl; [exact Hin|]; simpl; tauto).
  simpl. unfold _split_body.
  destruct (take_total a _ Hina) as [Xc HXc].
  destruct (take_total b _ Hinb) as [yc Hyc].
  rewrite HX, Hy, HXc, Hyc. simpl.
  destruct (_best_split Xc yc) as [lo [[pv v]|]] eqn:Hbs; simpl; [|left; eauto].
  rewrite (collect_decision _ pv v) by done. simpl.
  set (ds := map (decide_rule pv v) Xc).
  set (c2 := set_split (set_rule curr lo pv v) (size curr - sum ds, sum ds)).
  destruct (next_values_total self c2 a pv v (values curr) HX eq_refl eq_refl Hina)
    as (nv0 & nv1 & Hnv).
  change (values (set_rule curr lo pv v)) with (values curr).
  rewrite Hnv. simpl.
  apply next_values_spec in Hnv as (E0 & E1 & _).
  assert (forall s sz vs,
            X s = Some a -> y s = Some b ->
            Forall (fun i => (i < length a)%nat /\ (i < length b)%nat) vs ->
            returns_or_overflows
              (grow (_split fuel) s (new_Node sz vs (depth curr + 1) None)))
    as Hg.
  { intros s sz vs HXs Hys Hvs. unfold grow, _is_pure. rewrite Hys.
    destruct (take_total b vs) as [ys Hys'].
    { eapply Forall_impl; [exact Hvs|]; simpl; tauto. }
    simpl in Hys' |- *. rewrite Hys'. simpl.
    destruct (negb (is_zero (criterion ys)) && _); [|left; eauto].
    eapply IH; eauto. }
  assert (Forall (fun i => (i < length a)%nat /\ (i < length b)%nat) nv0) as Hin0.
  { rewrite E0. apply Forall_forall. intros i [_ Hi]%list_elem_of_filter.
    rewrite Forall_forall in Hin. auto. }
  assert (Forall (fun i => (i < length a)%nat /\ (i < length b)%nat) nv1) as Hin1.
  { rewrite E1. apply Forall_forall. intros i [_ Hi]%list_elem_of_filter.
    rewrite Forall_forall in Hin. auto. }
  change (size (set_rule curr lo pv v)) with (size curr).
  change (depth c2) with (depth curr). simpl.
  destruct (Hg (incr_num_nodes self) (size curr - sum ds) nv0)
    as [[[s1 lc] Hl] | Hl]; try done; rewrite Hl; simpl; [|by right].
  pose proof (grow_same_setup _ _ _ _ _ Hl) as (HX1 & Hy1 & _).
  simpl in HX1, Hy1.
  destruct (Hg (incr_num_nodes s1) (sum ds) nv1)
    as [[[s2 rc] Hr] | Hr]; try done; try (simpl; congruence);
    rewrite Hr; simpl; [left; eauto | by right].
Qed.

(** X11. Once the validation has accepted inputs with at least as many
    labels as rows, [fit] either returns or fails by exceeding the
    recursion limit: it raises no index, type or attribute error. *)
Theorem fit_fails_only_by_recursion fuel self X0 y0 Xv yv :
  validate_feature_matrix X0 = Ok Xv ->
  validate_target_vector y0 = Ok yv ->
  check_consistent_length X0 y0 = Ok tt ->
  (length Xv <= length yv)%nat ->
  (exists self', fit fuel self X0 y0 = Ok self') \/
  fit fuel self X0 y0 = Raise RecursionError.
Proof.
  intros HXv Hyv Hcc Hlen.
  rewrite fit_unfold, HXv, Hyv, Hcc. simpl.
  destruct (split_safe fuel (start self Xv yv) (new_root (length Xv)) Xv yv)
    as [[[s r] Hs] | Hs]; try done.
  - simpl. apply Forall_forall. intros i Hi%elem_of_seq. lia.
  - rewrite Hs. simpl. left. eauto.
  - rewrite Hs. simpl. by right.
Qed.

(** *** The root *)

Lemma collect_item_seq {A : Type} (pre a : list A) :
  collect (item (pre ++ a)) (seq (length pre) (length a)) = Ok a.
Proof.
  revert pre; induction a as [|x a IH]; intros pre; simpl; [done|].
  unfold item at 1. rewrite lookup_app_r, Nat.sub_diag by lia. simpl.
  replace (pre ++ x :: a) with ((pre ++ [x]) ++ a) by (by rewrite <- app_assoc).
  replace (S (length pre)) with (length (pre ++ [x]))
    by (rewrite length_app; simpl; lia).
  by rewrite IH.
Qed.

(** [arr[np.arange(len(arr))]] is [arr]. *)
Lemma take_all {A : Type} (a : list A) : take (Some a) (seq 0 (length a)) = Ok a.
Proof. exact (collect_item_seq [] a). Qed.

(** X12. The root is split exactly when the selector proposes a rule
    for the whole training set, whatever the limits and without a
    purity test: if it reports no split the tree is the root alone,
    sealed as a leaf; if it proposes a rule the root stores that rule
    and its loss, keeps the type [root] and receives two children. *)
Theorem root_follows_selector fuel self X0 y0 self' Xv yv :
  fit fuel self X0 y0 = Ok self' ->
  validate_feature_matrix X0 = Ok Xv ->
  validate_target_vector y0 = Ok yv ->
  length Xv = length yv ->
  exists r, root self' = Some r /\
    (snd (_best_split Xv yv) = None ->
       is_leaf r = true /\ nodes r = [r] /\ is_Some (prediction r)) /\
    (forall lo pv v, _best_split Xv yv = (lo, Some (pv, v)) ->
       is_leaf r = false /\ type r = Some "root" /\
       loss r = Some lo /\ p r = Some pv /\ val r = Some v /\
       exists lc rc, left r = Some lc /\ right r = Some rc).
Proof.
  intros H HXv Hyv Hlen.
  apply fit_inv in H as (Xt & yt & s & r & HXt & Hyt & _ & H & ->).
  rewrite HXv in HXt. rewrite Hyv in Hyt. injection HXt as <-. injection Hyt as <-.
  exists r; split; [done|].
  destruct fuel as [|fuel]; [discriminate|].
  simpl in H. apply _split_body_inv in H.
  destruct H as [Xc yc HXc Hyc Hnone
                |Xc yc l pv v ds nv0 nv1 s1 lc s2 rc HXc Hyc Hbs _ _ _ _];
    simpl in HXc, Hyc; rewrite Hlen in Hyc;
    pose proof (take_all Xv) as EX; pose proof (take_all yv) as Ey;
    simpl in EX, Ey; rewrite EX in HXc; rewrite Ey in Hyc;
    injection HXc as <-; injection Hyc as <-.
  - split.
    + intros _. repeat split; simpl; eauto.
    + intros lo pv v E. rewrite E in Hnone. discriminate.
  - split.
    + intros E. rewrite Hbs in E. discriminate.
    + intros lo pv' v' E. rewrite Hbs in E. injection E as <- <- <-.
      repeat split; simpl; eauto.
Qed.

(** *** Why a node is a leaf, and the rule of a node that is not *)

Lemma same_setup_sym (s1 s2 : DecisionTree) : same_setup s1 s2 -> same_setup s2 s1.
Proof. unfold same_setup; intuition congruence. Qed.

Lemma _is_pure_ext (s s' : DecisionTree) (c c' : Node) :
  y s = y s' -> values c = values c' -> _is_pure s c = _is_pure s' c'.
Proof. unfold _is_pure. by intros -> ->. Qed.

Lemma check_ext (s : DecisionTree) (c c' : Node) :
  depth c = depth c' -> size c = size c' ->
  _check_criterion s c = _check_criterion s c'.
Proof. unfold _check_criterion. by intros -> ->. Qed.

Lemma justified_ext (s s' : DecisionTree) nd :
  same_setup s s' -> justified s' nd -> justified s nd.
Proof.
  intros HS [Hleaf Hsplit]. pose proof HS as (EX & Ey & _). split.
  - intros Hl. destruct (Hleaf Hl) as [(Xc & yc & ? & ? & ?) | [Hp | (t & Ht & Hc)]].
    + left. exists Xc, yc. repeat split; congruence.
    + right. left. by rewrite (_is_pure_ext s s' nd nd).
    + right. right. exists t. split; [|done]. by eapply same_setup_trans.
  - intros Hl. destruct (Hsplit Hl) as (Xc & yc & lo & pv & v & ? & ? & ?).
    exists Xc, yc, lo, pv, v. repeat split; try tauto; congruence.
Qed.

Lemma children_checked_ext (s s' : DecisionTree) nd :
  same_setup s s' -> children_checked s' nd -> children_checked s nd.
Proof.
  intros HS Hc c Hch Hl. pose proof HS as (_ & Ey & _).
  destruct (Hc c Hch Hl) as (Hp & t & Ht & Hck). split.
  - by rewrite (_is_pure_ext s s' c c).
  - exists t. split; [|done]. by eapply same_setup_trans.
Qed.

Lemma split_justified fuel : forall self curr self' curr',
  _split fuel self curr = Ok (self', curr') -> fresh curr ->
  Forall (fun nd => justified self nd /\ children_checked self nd) (nodes curr').
Proof.
  induction fuel as [|fuel IH]; intros self curr self' curr' H (Hl0 & Hr0 & Hlf);
    [discriminate|].
  simpl in H; apply _split_body_inv in H;
    destruct H as [Xc yc HXc Hyc Hnone
                  |Xc yc l pv v ds nv0 nv1 s1 lc s2 rc HXc Hyc Hbs _ _ Hl Hr].
  - rewrite make_leaf_nodes by done. constructor; [|constructor]. split.
    + split; [|discriminate]. intros _. left. by exists Xc, yc.
    + intros c [E|E]; simpl in E; congruence.
  - assert (forall s c s' c', grow (_split fuel) s c = Ok (s', c') -> fresh c ->
        same_setup self s ->
        Forall (fun nd => justified self nd /\ children_checked self nd) (nodes c') /\
        (is_leaf c' = false ->
           _is_pure self c' = Ok false /\
           exists t, same_setup self t /\ _check_criterion t c' = true)) as Hg.
    { intros s c s' c' G Hf HS.
      pose proof (grow_keeps _ _ _ _ _ G) as (Vc & Sc & Dc).
      pose proof HS as (_ & Ey & _).
      grow_cases G.
      - split.
        + eapply Forall_impl; [eapply IH; eauto|]. simpl.
          intros nd [J K]. split;
            [by eapply justified_ext | by eapply children_checked_ext].
        + intros _. apply andb_true_iff in Hcheck as [Hp Hc].
          apply negb_true_iff in Hp. subst pure. split.
          * by rewrite (_is_pure_ext self s c' c).
          * exists s. split; [done|]. by rewrite (check_ext s c' c).
      - destruct Hf as (Hf1 & Hf2 & _). split; [|discriminate].
        rewrite make_leaf_nodes by done. constructor; [|constructor]. split.
        + split; [|discriminate]. intros _. right.
          apply andb_false_iff in Hcheck as [Hp | Hc].
          * left. apply negb_false_iff in Hp. subst pure.
            by rewrite (_is_pure_ext self s (make_leaf s c).2 c).
          * right. exists s. split; [done|].
            by rewrite (check_ext s (make_leaf s c).2 c).
        + intros c0 [E|E]; simpl in E; congruence. }
    pose proof (grow_same_setup _ _ _ _ _ Hl) as HS1.
    apply Hg in Hl as (Fl & Cl), Hr as (Fr & Cr); try apply new_Node_fresh.
    + simpl. constructor; [|by apply Forall_app]. split.
      * split; [simpl; unfold is_leaf in *; simpl in *; congruence|].
        intros _. exists Xc, yc, l, pv, v. by repeat split.
      * intros c [[= <-]|[= <-]]; simpl; done.
    + eapply same_setup_trans; [apply same_setup_counters|].
      eapply same_setup_trans; [exact HS1|]. apply same_setup_counters.
    + apply same_setup_counters.
Qed.

Lemma nodes_parent r : forall x,
  x ∈ nodes r ->
  x = r \/ exists nd, nd ∈ nodes r /\ (left nd = Some x \/ right nd = Some x).
Proof.
  induction r as [r IHl IHr] using Node_induction. intros x Hx.
  rewrite nodes_unfold in Hx. apply elem_of_cons in Hx as [->|Hx]; [by left|].
  right. apply elem_of_app in Hx as [Hx|Hx].
  - destruct (left r) as [lc|] eqn:El; [|by apply elem_of_nil in Hx].
    simpl in *. destruct (IHl x Hx) as [->|(nd & Hnd & Hc)].
    + exists r. split; [apply nodes_self | by left].
    + exists nd. split; [|done]. eapply nodes_below; [|exact Hnd]. by left.
  - destruct (right r) as [rc|] eqn:Er; [|by apply elem_of_nil in Hx].
    simpl in *. destruct (IHr x Hx) as [->|(nd & Hnd & Hc)].
    + exists r. split; [apply nodes_self | by right].
    + exists nd. split; [|done]. eapply nodes_below; [|exact Hnd]. by right.
Qed.

(** *** Nodes of at most one sample *)

(** A rule of a separating selector needs two rows. *)
Lemma separating_two_rows Xc yc lo pv v :
  separating -> _best_split Xc yc = (lo, Some (pv, v)) -> (2 <= length Xc)%nat.
Proof.
  intros Hsep H.
  destruct (Hsep _ _ _ _ _ H) as [(xt & Ht & Dt) (xf & Hf & Df)].
  destruct Xc as [|a [|b Xc]]; simpl; try lia.
  - by apply elem_of_nil in Ht.
  - apply list_elem_of_singleton in Ht, Hf. subst. congruence.
Qed.

(** On a node of at most one sample the selector reports no split, and
    [_split] seals the node. *)
Lemma split_small fuel self curr self' curr' :
  separating ->
  _split fuel self curr = Ok (self', curr') ->
  (length (values curr) <= 1)%nat ->
  self' = incr_num_leaf_nodes self /\ curr' = (make_leaf self curr).2.
Proof.
  intros Hsep H Hlen. destruct fuel as [|fuel]; [discriminate|].
  simpl in H. apply _split_body_inv in H.
  destruct H as [Xc yc HXc Hyc Hnone
                |Xc yc l pv v ds nv0 nv1 s1 lc s2 rc HXc Hyc Hbs _ _ _ _].
  - done.
  - apply take_length in HXc.
    pose proof (separating_two_rows _ _ _ _ _ Hsep Hbs). lia.
Qed.

(** C6. With a selector that returns viable splits only, a node of size
    at most 1 is never split, whatever the limits: in every tree that
    [fit] returns such a node is a leaf without children, the root
    included, which is handed to [_split] without any test.  Fitting on
    a single sample seals the root directly: the tree has exactly one
    node and one leaf, and the counters advance by one each. *)
Theorem singleton_sealed fuel self X0 y0 self' :
  separating ->
  fit fuel self X0 y0 = Ok self' ->
  exists r, root self' = Some r /\
    (forall nd, nd ∈ nodes r -> size nd <= 1 -> sealed nd) /\
    (forall x l,
       validate_feature_matrix X0 = Ok [x] ->
       validate_target_vector y0 = Ok [l] ->
       size r = 1 /\ sealed r /\ nodes r = [r] /\
       count_nodes r = 1 /\ count_leaves r = 1 /\
       num_nodes self' = num_nodes self + 1 /\
       num_leaf_nodes self' = num_leaf_nodes self + 1).
Proof.
  intros Hsep H.
  apply fit_inv in H as (Xv & yv & s & r & HXv & Hyv & _ & H & ->).
  exists r; split; [done|]. split.
  - assert (Forall sized (nodes r)) as HS.
    { eapply split_sized; [exact H | apply new_root_fresh |].
      simpl. by rewrite length_seq. }
    rewrite Forall_forall in HS. intros nd Hnd Hsz.
    destruct (nodes_parent r nd Hnd) as [->|(pa & Hpa & Hc)].
    + pose proof (split_follows_rule _ _ _ _ _ H) as (_ & Hsize & _).
      rewrite Hsize in Hsz. simpl in Hsz.
      destruct (split_small _ _ _ _ _ Hsep H) as [_ ->].
      * simpl. rewrite length_seq. lia.
      * by apply make_leaf_sealed.
    + destruct (HS pa Hpa) as (_ & Hch). destruct (Hch nd Hc); [done|lia].
  - intros x l Ex El. rewrite Ex in HXv. rewrite El in Hyv.
    injection HXv as <-. injection Hyv as <-.
    destruct (split_small _ _ _ _ _ Hsep H) as [-> ->]; [simpl; lia|].
    by repeat split.
Qed.

(** X13. Without limits the tree is grown to the end: when no maximum
    depth, node count or leaf count is configured, every leaf of the
    tree that [fit] returns holds samples on which the selector reports
    no split, or whose labels are pure, or has size at most 1. *)
Theorem leaves_final fuel self X0 y0 self' :
  max_depth self = inf -> max_nodes self = inf -> max_leaf_nodes self = inf ->
  fit fuel self X0 y0 = Ok self' ->
  exists r, root self' = Some r /\
    forall lf, lf ∈ leaves r ->
      no_split_found self' lf \/ _is_pure self' lf = Ok true \/ size lf <= 1.
Proof.
  intros Hd Hn Hl H.
  apply fit_inv in H as (Xv & yv & s & r & _ & _ & _ & H & ->).
  exists r; split; [done|].
  pose proof (split_same_setup _ _ _ _ _ H) as (EX & Ey & _).
  pose proof (split_justified _ _ _ _ _ H (new_root_fresh _)) as HJ.
  rewrite Forall_forall in HJ.
  intros lf [Hlf Hin]%list_elem_of_filter.
  destruct (HJ lf Hin) as [[Hleaf _] _].
  destruct (Hleaf Hlf) as [(Xc & yc & A & B & Cn) | [Hp | (t & Ht & Hc)]].
  - left. exists Xc, yc.
    change (X (set_root s r)) with (X s). change (y (set_root s r)) with (y s).
    rewrite EX, Ey. done.
  - right. left. by rewrite (_is_pure_ext _ (start self Xv yv) lf lf).
  - right. right. destruct Ht as (_ & _ & _ & _ & D1 & D2 & D3 & _).
    unfold _check_criterion in Hc. simpl in D1, D2, D3.
    rewrite D1, D2, D3, Hd, Hn, Hl in Hc. simpl in Hc.
    apply Z.ltb_ge in Hc. done.
Qed.

(** X14. Every node of a tree that [fit] returns that is not a leaf
    stores the loss and the rule that the selector returns on the
    training rows and labels of the node's own sample indices. *)
Theorem rules_recorded fuel self X0 y0 self' :
  fit fuel self X0 y0 = Ok self' ->
  exists r, root self' = Some r /\
    forall nd, nd ∈ nodes r -> is_leaf nd = false ->
      exists Xc yc lo pv v,
        take (X self') (values nd) = Ok Xc /\
        take (y self') (values nd) = Ok yc /\
        _best_split Xc yc = (lo, Some (pv, v)) /\
        loss nd = Some lo /\ p nd = Some pv /\ val nd = Some v.
Proof.
  intros H.
  apply fit_inv in H as (Xv & yv & s & r & _ & _ & _ & H & ->).
  exists r; split; [done|].
  pose proof (split_same_setup _ _ _ _ _ H) as (EX & Ey & _).
  pose proof (split_justified _ _ _ _ _ H (new_root_fresh _)) as HJ.
  rewrite Forall_forall in HJ.
  intros nd Hin Hlf. destruct (HJ nd Hin) as [[_ Hsplit] _].
  destruct (Hsplit Hlf) as (Xc & yc & lo & pv & v & A & B & E).
  exists Xc, yc, lo, pv, v.
  change (X (set_root s r)) with (X s). change (y (set_root s r)) with (y s).
  rewrite EX, Ey. done.
Qed.

(** X15. A child is split further only when its labels are impure, its
    size is greater than 1 and its depth is below the maximum depth: in
    a tree that [fit] returns every child that is not a leaf has these
    three properties, so a pure child, a child of at most one sample and
    a child at the maximum depth are leaves. *)
Theorem split_children_checked fuel self X0 y0 self' :
  fit fuel self X0 y0 = Ok self' ->
  exists r, root self' = Some r /\
    forall nd c, nd ∈ nodes r -> left nd = Some c \/ right nd = Some c ->
      is_leaf c = false ->
      _is_pure self' c = Ok false /\ 1 < size c /\
      lt_limit (depth c) (max_depth self') = true.
Proof.
  intros H.
  apply fit_inv in H as (Xv & yv & s & r & _ & _ & _ & H & ->).
  exists r; split; [done|].
  pose proof (split_same_setup _ _ _ _ _ H) as (EX & Ey & _ & _ & ED & _).
  pose proof (split_justified _ _ _ _ _ H (new_root_fresh _)) as HJ.
  rewrite Forall_forall in HJ.
  intros nd c Hin Hc Hlf. destruct (HJ nd Hin) as [_ Hch].
  destruct (Hch c Hc Hlf) as (Hp & t & Ht & Hck).
  apply check_true in Hck as (Hdepth & _ & _ & Hsize).
  destruct Ht as (_ & _ & _ & _ & D1 & _).
  split; [by rewrite (_is_pure_ext _ (start self Xv yv) c c)|].
  split; [done|]. simpl. rewrite ED. by rewrite D1 in Hdepth.
Qed.

(** *** The dump *)

Lemma pop_snoc {A : Type} (q : list A) x : pop (q ++ [x]) = Some (q, x).
Proof. unfold pop. by rewrite reverse_snoc, reverse_involutive. Qed.

Lemma pop_inv {A : Type} (q : list A) :
  (pop q = None /\ q = []) \/ (exists q' x, pop q = Some (q', x) /\ q = q' ++ [x]).
Proof.
  destruct (reverse q) as [|x r] eqn:E.
  - left. split; [unfold pop; by rewrite E|].
    by rewrite <- (reverse_involutive q), E.
  - right. exists (reverse r), x.
    assert (q = reverse r ++ [x]) as Hq
      by (by rewrite <- (reverse_involutive q), E, reverse_cons).
    split; [unfold pop; by rewrite E | done].
Qed.

Lemma dump_visit (str : Node -> string) steps : forall q st,
  dump str steps q st = fold_left (print_node str) (visit steps q) st.
Proof.
  induction steps as [|k IH]; intros q st; simpl; [done|].
  destruct (pop q) as [[q' curr]|]; simpl; [apply IH | done].
Qed.

Lemma nodes_insert_front o (q : list Node) :
  concat (nodes <$> insert_front o q) =
  from_option nodes [] o ++ concat (nodes <$> q).
Proof. by destruct o. Qed.

Lemma visit_perm steps : forall q : list Node,
  (length (concat (nodes <$> q)) <= steps)%nat ->
  visit steps q ≡ₚ concat (nodes <$> q).
Proof.
  induction steps as [|k IH]; intros q Hlen.
  - destruct (concat (nodes <$> q)); [done | simpl in Hlen; lia].
  - simpl. destruct (pop_inv q) as [[-> ->] | (q' & curr & -> & ->)]; [done|].
    rewrite fmap_app, concat_app in *. simpl in *.
    rewrite app_nil_r, (nodes_unfold curr) in *.
    rewrite length_app in Hlen. simpl in Hlen. rewrite length_app in Hlen.
    rewrite IH.
    + rewrite !nodes_insert_front.
      rewrite <- Permutation_middle. constructor.
      set (L := from_option nodes [] (left curr)).
      set (Rr := from_option nodes [] (right curr)).
      set (Q := concat (nodes <$> q')).
      rewrite (Permutation_app_comm Q (L ++ Rr)).
      rewrite (Permutation_app_comm L Rr). by rewrite <- app_assoc.
    + rewrite !nodes_insert_front, !length_app. lia.
Qed.

Lemma sorted_snoc (l : list Node) x :
  StronglySorted shallower l -> (forall z, z ∈ l -> shallower z x) ->
  StronglySorted shallower (l ++ [x]).
Proof.
  intros Hs Hx. apply StronglySorted_app. split; [|split; [done|]].
  - intros x1 x2 Hx1 ->%list_elem_of_singleton. by apply Hx.
  - repeat constructor.
Qed.

Lemma insert_front_elem o (q : list Node) x :
  x ∈ insert_front o q <-> o = Some x \/ x ∈ q.
Proof.
  destruct o as [c|]; simpl.
  - rewrite elem_of_cons. split.
    + intros [->|?]; [by left | by right].
    + intros [[= ->]|?]; [by left | by right].
  - split; [by right | by intros [?|?]].
Qed.

Lemma visit_sorted steps : forall (q : list Node) d,
  StronglySorted shallower (reverse q) ->
  (forall x, x ∈ q -> d <= depth x <= d + 1) ->
  (forall x, x ∈ q -> Forall child_depths (nodes x)) ->
  StronglySorted shallower (visit steps q) /\
  forall x, x ∈ visit steps q -> d <= depth x.
Proof.
  induction steps as [|k IH]; intros q d Hs Hd Hc; simpl.
  { split; [constructor | by intros x Hx%elem_of_nil]. }
  destruct (pop_inv q) as [[-> ->] | (q' & curr & -> & ->)].
  { split; [constructor | by intros x Hx%elem_of_nil]. }
  rewrite reverse_snoc in Hs. apply StronglySorted_cons in Hs as [Hall Hs].
  rewrite Forall_forall in Hall.
  assert (d <= depth curr <= d + 1) as Hdc
    by (apply Hd, elem_of_app; right; left).
  destruct (Forall_nodes_inv child_depths curr) as (Hcd & Hl & Hr).
  { apply Hc, elem_of_app; right; left. }
  set (nq := insert_front (right curr) (insert_front (left curr) q')).
  assert (forall x, x ∈ nq ->
            (x ∈ q' \/ left curr = Some x \/ right curr = Some x)) as Hnq.
  { intros x Hx. unfold nq in Hx.
    apply insert_front_elem in Hx as [Hx|Hx]; [by right; right|].
    apply insert_front_elem in Hx as [Hx|Hx]; [by right; left | by left]. }
  assert (forall x, x ∈ q' -> depth curr <= depth x <= d + 1) as Hq'.
  { intros x Hx. split.
    - apply (Hall x). by apply elem_of_reverse.
    - apply Hd, elem_of_app. by left. }
  assert (forall c z, left curr = Some c \/ right curr = Some c ->
            z ∈ reverse q' -> shallower z c) as Hchild.
  { intros c z Hcz Hz. apply (proj1 (elem_of_reverse z q')) in Hz.
    unfold shallower. rewrite (Hcd c Hcz). specialize (Hq' z Hz). lia. }
  destruct (IH nq (depth curr)) as [Hsorted Hlow].
  - unfold nq, insert_front.
    destruct (right curr) as [rc|] eqn:Er, (left curr) as [lc|] eqn:El;
      rewrite ?reverse_cons.
    + apply sorted_snoc; [apply sorted_snoc|].
      * done.
      * intros z Hz. apply Hchild; [by left | done].
      * intros z [Hz|Hz]%elem_of_app.
        -- apply Hchild; [by right | done].
        -- apply list_elem_of_singleton in Hz as ->. unfold shallower.
           rewrite (Hcd lc), (Hcd rc); [lia | by right | by left].
    + apply sorted_snoc; [done|]. intros z Hz. apply Hchild; [by right | done].
    + apply sorted_snoc; [done|]. intros z Hz. apply Hchild; [by left | done].
    + done.
  - intros x Hx. destruct (Hnq x Hx) as [Hx'|[Hx'|Hx']].
    + pose proof (Hq' x Hx'). lia.
    + rewrite (Hcd x) by (by left). lia.
    + rewrite (Hcd x) by (by right). lia.
  - intros x Hx. destruct (Hnq x Hx) as [Hx'|[Hx'|Hx']].
    + apply Hc, elem_of_app. by left.
    + rewrite Hx' in Hl. exact Hl.
    + rewrite Hx' in Hr. exact Hr.
  - split.
    + apply StronglySorted_cons. split; [|done].
      apply Forall_forall. intros x Hx. exact (Hlow x Hx).
    + intros x [->|Hx]%elem_of_cons; [lia|]. specialize (Hlow x Hx). lia.
Qed.

(** X16. On an instance whose counter was not negative before, the
    dump of a tree that [fit] has returned terminates and prints every
    node of the tree exactly once, shallower nodes first: its text is
    the text of a rearrangement of the tree's nodes in which the depths
    never decrease, each level opened by one header. *)
Theorem dump_lists_every_node (str : Node -> string) fuel self X0 y0 self' :
  0 <= num_nodes self ->
  fit fuel self X0 y0 = Ok self' ->
  exists r order,
    root self' = Some r /\ order ≡ₚ nodes r /\
    StronglySorted shallower order /\
    __str__ str self' = Ok (render str order).
Proof.
  intros Hnn H. destruct (fit_counters _ _ _ _ _ H) as (r & Hr & HN & _ & HB).
  apply fit_inv in H as (Xv & yv & s & r' & _ & _ & _ & H & ->).
  simpl in Hr. injection Hr as ->.
  pose proof (split_child_depths _ _ _ _ _ H (new_root_fresh _)) as HD.
  exists r, (visit (length (nodes r)) [r]). split; [done|]. split; [|split].
  - rewrite visit_perm; simpl; rewrite app_nil_r; done.
  - destruct (visit_sorted (length (nodes r)) [r] (depth r)) as [Hs _]; try done.
    + repeat constructor.
    + intros x ->%list_elem_of_singleton. lia.
    + by intros x ->%list_elem_of_singleton.
  - unfold __str__, render. simpl in HN |- *.
    destruct (0 <? num_nodes s) eqn:E; [|apply Z.ltb_ge in E; lia].
    by rewrite dump_visit.
Qed.

(** *** The predictions of the leaves, and the configuration *)

Lemma make_leaf_prediction self nd :
  prediction nd = None ->
  prediction (make_leaf self nd).2 =
  Some (_evaluate_leaf self (without_prediction (make_leaf self nd).2)).
Proof. destruct nd; simpl. by intros ->. Qed.

Lemma split_predictions fuel : forall self curr self' curr',
  leaf_from_data ->
  _split fuel self curr = Ok (self', curr') -> fresh curr ->
  prediction curr = None ->
  Forall (fun nd => is_leaf nd = true ->
            prediction nd = Some (_evaluate_leaf self (without_prediction nd)))
    (nodes curr').
Proof.
  induction fuel as [|fuel IH];
    intros self curr self' curr' Hleaf H (Hl0 & Hr0 & Hlf) Hpr; [discriminate|].
  simpl in H; apply _split_body_inv in H;
    destruct H as [|? ? l pv v ds nv0 nv1 s1 lc s2 rc _ _ _ _ _ Hl Hr].
  - rewrite make_leaf_nodes by done. constructor; [|constructor].
    intros _. by apply make_leaf_prediction.
  - assert (forall s c s' c', grow (_split fuel) s c = Ok (s', c') -> fresh c ->
        prediction c = None -> same_setup self s ->
        Forall (fun nd => is_leaf nd = true ->
                  prediction nd = Some (_evaluate_leaf self (without_prediction nd)))
          (nodes c')) as Hg.
    { intros s c s' c' G Hf Hp (EX & Ey & _). grow_cases G.
      - eapply Forall_impl; [eapply IH; eauto|]. simpl.
        intros nd Hnd Hnl. rewrite (Hnd Hnl). f_equal. by apply Hleaf.
      - destruct Hf as (Hf1 & Hf2 & _). rewrite make_leaf_nodes by done.
        constructor; [|constructor]. intros _.
        rewrite make_leaf_prediction by done. f_equal. by apply Hleaf. }
    pose proof (grow_same_setup _ _ _ _ _ Hl) as HS1.
    apply Hg in Hl, Hr; try apply new_Node_fresh; try done.
    simpl. constructor; [|by apply Forall_app].
    unfold is_leaf in *. simpl in *. congruence.
Qed.

(** X20. When the leaf evaluation reads only the training data and the
    node, the prediction stored on every leaf of a tree that [fit]
    returns is the value of [_evaluate_leaf] on that leaf, taken as it
    is when the builder calls it: marked as a leaf, without a
    prediction. *)
Theorem leaf_predictions fuel self X0 y0 self' :
  leaf_from_data ->
  fit fuel self X0 y0 = Ok self' ->
  exists r, root self' = Some r /\
    forall lf, lf ∈ leaves r ->
      prediction lf = Some (_evaluate_leaf self' (without_prediction lf)).
Proof.
  intros Hleaf H.
  apply fit_inv in H as (Xv & yv & s & r & _ & _ & _ & H & ->).
  exists r; split; [done|].
  pose proof (split_same_setup _ _ _ _ _ H) as (EX & Ey & _).
  pose proof (split_predictions _ _ _ _ _ Hleaf H (new_root_fresh _) eq_refl) as HF.
  rewrite Forall_forall in HF.
  intros lf [Hlf Hin]%list_elem_of_filter.
  rewrite (HF lf Hin Hlf). f_equal. by apply Hleaf.
Qed.

(** X21. [fit] stores the validated data and the number of rows on the
    tree object and leaves the configuration as it was: the limits and
    [min_nodes_per_leaf] after [fit] are those given to the
    constructor. *)
Theorem fit_keeps_configuration fuel self X0 y0 self' :
  fit fuel self X0 y0 = Ok self' ->
  exists Xv yv,
    validate_feature_matrix X0 = Ok Xv /\ validate_target_vector y0 = Ok yv /\
    X self' = Some Xv /\ y self' = Some yv /\ n self' = Some (length Xv) /\
    max_depth self' = max_depth self /\ max_nodes self' = max_nodes self /\
    max_leaf_nodes self' = max_leaf_nodes self /\
    min_nodes_per_leaf self' = min_nodes_per_leaf self.
Proof.
  intros H. apply fit_inv in H as (Xv & yv & s & r & HX & Hy & _ & H & ->).
  exists Xv, yv. split; [done|]. split; [done|].
  pose proof (split_same_setup _ _ _ _ _ H) as (? & ? & ? & ? & ? & ? & ? & ?).
  by repeat split.
Qed.

(** *** The predictor on an absent root or an empty query *)

(** C9. On a query matrix that has no rows [predict] returns the empty
    array, whatever the tree, and so also when the root is absent. *)
Theorem predict_no_rows self X0 :
  validate_feature_matrix X0 = Ok [] ->
  predict self X0 = Ok [].
Proof. unfold predict. by intros ->. Qed.

Lemma collect_first_raises {A B : Type} (f : A -> result B) x xs e :
  f x = Raise e -> collect f (x :: xs) = Raise e.
Proof. simpl. by intros ->. Qed.

(** C8 (as amended). On a tree whose root is absent, [predict] raises
    (the [AttributeError] of reading an attribute of [None]) for every
    query that has at least one row after validation; a query without
    rows returns the empty array, and a query that validation rejects
    raises the validation's exception. *)
Theorem predict_unfitted self X0 :
  root self = None ->
  (forall Xv, validate_feature_matrix X0 = Ok Xv -> Xv <> [] ->
     predict self X0 = Raise AttributeError) /\
  (validate_feature_matrix X0 = Ok [] -> predict self X0 = Ok []) /\
  (forall e, validate_feature_matrix X0 = Raise e -> predict self X0 = Raise e).
Proof.
  intros Hroot. unfold predict. repeat split.
  - intros [|x Xv] -> Hne; [done|]. simpl.
    apply collect_first_raises. unfold predict_row. by rewrite Hroot.
  - by intros ->.
  - by intros e ->.
Qed.

End Properties.

(** ** The label maps of the margin classifiers *)

Section SVCProperties.

Import SVC.

Lemma insert_sorted_elem z l x : x ∈ insert_sorted z l <-> x = z \/ x ∈ l.
Proof.
  induction l as [|y l IH]; simpl.
  - rewrite list_elem_of_singleton. split; [by left | by intros [?|?%elem_of_nil]].
  - destruct (z <? y) eqn:E1; [by rewrite elem_of_cons|].
    destruct (z =? y) eqn:E2.
    + apply Z.eqb_eq in E2 as ->. rewrite elem_of_cons. tauto.
    + rewrite !elem_of_cons, IH. tauto.
Qed.

Lemma insert_sorted_sorted z l :
  StronglySorted Z.lt l -> StronglySorted Z.lt (insert_sorted z l).
Proof.
  induction 1 as [|y l Hs IH Hy]; simpl; [repeat constructor|].
  destruct (z <? y) eqn:E1.
  - apply Z.ltb_lt in E1. constructor; [by constructor|].
    constructor; [done|]. eapply Forall_impl; [exact Hy|]. simpl. lia.
  - destruct (z =? y) eqn:E2; [by constructor|].
    apply Z.ltb_ge in E1. apply Z.eqb_neq in E2.
    constructor; [done|]. apply Forall_forall. intros x Hx.
    apply insert_sorted_elem in Hx as [->|Hx]; [lia|].
    rewrite Forall_forall in Hy. by apply Hy.
Qed.

Lemma unique_elem ys x : x ∈ unique ys <-> x ∈ ys.
Proof.
  induction ys as [|y ys IH]; simpl; [done|].
  rewrite insert_sorted_elem, IH, elem_of_cons. tauto.
Qed.

Lemma unique_sorted ys : StronglySorted Z.lt (unique ys).
Proof.
  induction ys as [|y ys IH]; simpl; [constructor | by apply insert_sorted_sorted].
Qed.


Lemma unique_one ys a :
  a ∈ ys -> (forall c, c ∈ ys -> c = a) -> unique ys = [a].
Proof.
  intros Ha Hall. pose proof (unique_sorted ys) as Hs.
  apply (proj2 (unique_elem ys a)) in Ha.
  assert (forall c, c ∈ unique ys -> c = a) as Hall'
    by (intros c Hc; apply Hall; by apply (proj1 (unique_elem ys c))).
  destruct (unique ys) as [|x [|y l]].
  - by apply elem_of_nil in Ha.
  - by apply list_elem_of_singleton in Ha as ->.
  - apply StronglySorted_cons in Hs as [[Hxy _]%Forall_cons _].
    rewrite (Hall' x ltac:(left)), (Hall' y ltac:(right; left)) in Hxy. lia.
Qed.



(** X18. With three or more classes among training targets that are
    integers of 64 bits, which the array of the targets holds as they
    are, the encoding fails: only the two smallest labels are keys of
    [map_new], so the look-up of any other label raises [KeyError]. *)
Theorem svc_third_class ys x1 x2 x3 :
  int64 ys ->
  x1 < x2 -> x2 < x3 -> x1 ∈ ys -> x2 ∈ ys -> x3 ∈ ys ->
  map_new ys !! x3 = None /\ encode ys = None.
Proof.
  intros _ H12 H23 H1 H2 H3.
  assert (map_new ys !! x3 = None) as Hnone.
  { pose proof (unique_sorted ys) as Hs.
    pose proof (proj2 (unique_elem ys x1) H1) as U1.
    pose proof (proj2 (unique_elem ys x2) H2) as U2.
    unfold map_new. destruct (unique ys) as [|u1 [|u2 rest]].
    - by apply elem_of_nil in U1.
    - apply list_elem_of_singleton in U1, U2. lia.
    - apply StronglySorted_cons in Hs as [Hu1 Hs].
      apply StronglySorted_cons in Hs as [Hu2 _].
      rewrite Forall_forall in Hu1, Hu2.
      assert (u1 <= x1) as A1.
      { apply elem_of_cons in U1 as [->|U1]; [lia|]. specialize (Hu1 _ U1). lia. }
      assert (u2 <= x2) as A2.
      { apply elem_of_cons in U2 as [->|U2]; [lia|].
        apply elem_of_cons in U2 as [->|U2]; [lia|]. specialize (Hu2 _ U2). lia. }
      unfold dict. simpl.
      rewrite !lookup_insert_ne by lia. apply lookup_empty. }
  split; [done|].
  unfold encode. destruct (mapM _ ys) as [es|] eqn:E; [|done].
  apply mapM_Some_1 in E.
  apply list_elem_of_lookup in H3 as [i Hi].
  destruct (Forall2_lookup_l _ _ _ _ _ E Hi) as (e & _ & He). congruence.
Qed.

Lemma encode_constant (m : gmap Z Z) v ys :
  (forall c, c ∈ ys -> m !! c = Some v) ->
  mapM (fun i => m !! i) ys = Some (replicate (length ys) v).
Proof.
  induction ys as [|c ys IH]; intros Hall; [done|].
  change (mapM (fun i => m !! i) (c :: ys)) with
    (x ← m !! c; k ← mapM (fun i => m !! i) ys; mret (x :: k)).
  rewrite (Hall c) by left.
  by rewrite IH by (intros c' Hc'; apply Hall; by right).
Qed.

(** X19. With a single class among the training targets the encoding
    succeeds (every target becomes -1), but [map_orig] has no key 1, so
    the look-up [self.map_orig[1]] of [predict] raises [KeyError]
    whatever the signs of the decision values are, an empty query
    included. *)
Theorem svc_single_class ys a positive :
  a ∈ ys -> (forall c, c ∈ ys -> c = a) ->
  encode ys = Some (replicate (length ys) (-1)) /\
  map_orig ys !! 1 = None /\
  predict (map_orig ys) positive = None.
Proof.
  intros Ha Hall.
  assert (map_new ys = <[a:=-1]> ∅) as Enew
    by (unfold map_new; by rewrite (unique_one ys a)).
  assert (map_orig ys = <[-1:=a]> ∅) as Eorig
    by (unfold map_orig; by rewrite (unique_one ys a)).
  assert (map_orig ys !! 1 = None) as Hnone
    by (by rewrite Eorig, lookup_insert_ne, lookup_empty).
  split; [|split; [done|]].
  - apply encode_constant. intros c Hc. rewrite (Hall c Hc), Enew.
    apply lookup_insert_eq.
  - unfold predict. by rewrite Hnone.
Qed.


Lemma svc_third_class_witness :
  int64 [2; 1; 5] /\
  1 < 2 /\ 2 < 5 /\ 1 ∈ [2; 1; 5] /\ 2 ∈ [2; 1; 5] /\ 5 ∈ [2; 1; 5] /\
  map_new [2; 1; 5] !! 5 = None /\ encode [2; 1; 5] = None.
Proof.
  assert (int64 [2; 1; 5]) as Hint by (repeat constructor; lia).
  split; [exact Hint|].
  split; [lia|]. split; [lia|].
  split; [right; left|]. split; [left|]. split; [right; right; left|].
  apply (svc_third_class [2; 1; 5] 1 2 5);
    [exact Hint | lia | lia | right; left | left | right; right; left].
Defined.

Lemma svc_single_class_witness :
  4 ∈ [4; 4] /\ (forall c, c ∈ [4; 4] -> c = 4) /\
  encode [4; 4] = Some (replicate (length [4; 4]) (-1)) /\
  map_orig [4; 4] !! 1 = None /\
  predict (map_orig [4; 4]) [true; false] = None.
Proof.
  assert (forall c : Z, c ∈ [4; 4] -> c = 4) as Hall.
  { intros c Hc. repeat (apply elem_of_cons in Hc as [->|Hc]); auto.
    by apply elem_of_nil in Hc. }
  split; [left|]. split; [exact Hall|].
  apply (svc_single_class [4; 4] 4 [true; false]); [left | exact Hall].
Defined.

End SVCProperties.

(** ** The properties at concrete inputs *)

(** Evaluation of a call at a concrete input. *)
Ltac returns e :=
  let r := eval vm_compute in e in
  lazymatch r with
  | Ok ?t => exists t
  end.

Ltac evaluated := vm_compute; reflexivity.

Section AtMidpoint.

#[local] Existing Instance midpoint.

Lemma index_partition_witness :
  exists t', fit 5 (tree None None None) X4 y4_alt = Ok t' /\
  (exists r, root t' = Some r /\
    (forall Xc yc lo pv v,
       take (X t') (values r) = Ok Xc ->
       take (y t') (values r) = Ok yc ->
       _best_split Xc yc = (lo, Some (pv, v)) ->
       is_leaf r = false) /\
    forall nd, nd ∈ nodes r ->
      (is_leaf nd = false ->
         exists lc rc, left nd = Some lc /\ right nd = Some rc) /\
      forall lc rc, left nd = Some lc -> right nd = Some rc ->
        values lc = filter (fun i => side t' nd i = Some false) (values nd) /\
        values rc = filter (fun i => side t' nd i = Some true) (values nd) /\
        sublist (values lc) (values nd) /\
        sublist (values rc) (values nd) /\
        (forall i, i ∈ values nd <-> i ∈ values lc \/ i ∈ values rc) /\
        (forall i, i ∈ values lc -> i ∉ values rc) /\
        (forall i, i ∈ values nd ->
           (i ∈ values lc <-> side t' nd i = Some false) /\
           (i ∈ values rc <-> side t' nd i = Some true))) /\
  exists r lc rc,
    root t' = Some r /\ is_leaf r = false /\
    left r = Some lc /\ right r = Some rc /\
    values r = [0; 1; 2; 3]%nat /\
    values lc = [0]%nat /\ values rc = [1; 2; 3]%nat.
Proof.
  returns (fit 5 (tree None None None) X4 y4_alt). split; [evaluated|].
  split.
  - apply (index_partition 5 (tree None None None) X4 y4_alt). evaluated.
  - do 3 eexists. split; [reflexivity|]. split; [reflexivity|].
    split; [reflexivity|]. split; [reflexivity|]. repeat split.
Defined.

Lemma predict_no_rows_witness :
  validate_feature_matrix [] = Ok [] /\
  predict (tree None None None) [] = Ok [].
Proof.
  split; [reflexivity|].
  apply (predict_no_rows (tree None None None) []). reflexivity.
Defined.

(** C8, the claim as stated: before any [fit], a query without rows
    returns a value. *)
Lemma predict_unfitted_returns :
  root (tree None None None) = None /\
  predict (tree None None None) [] = Ok [].
Proof. split; reflexivity. Qed.

Lemma predict_unfitted_witness :
  root (tree None None None) = None /\
  (forall Xv, validate_feature_matrix [[1#2]%Q] = Ok Xv ->
     Xv <> [] ->
     predict (tree None None None) [[1#2]%Q] = Raise AttributeError).
Proof.
  split; [reflexivity|].
  apply (predict_unfitted (tree None None None) [[1#2]%Q]).
  reflexivity.
Defined.

(** C3, at a second call of [fit] on the same instance: the tree is
    rebuilt (one node, one leaf) but the counters, which [fit] does not
    reset, read 2 and 2. *)
Theorem refit_counters :
  exists t1 t2 r,
    fit 2 (tree None None None) [[5%Q]] [1] = Ok t1 /\
    fit 2 t1 [[5%Q]] [1] = Ok t2 /\
    root t2 = Some r /\
    count_nodes r = 1 /\ count_leaves r = 1 /\
    num_nodes t2 = 2 /\ num_leaf_nodes t2 = 2.
Proof.
  returns (fit 2 (tree None None None) [[5%Q]] [1]).
  returns (bind (fit 2 (tree None None None) [[5%Q]] [1])
             (fun t1 => fit 2 t1 [[5%Q]] [1])).
  eexists. split; [evaluated|]. split; [evaluated|].
  split; [reflexivity|]. repeat split; evaluated.
Qed.

(** C7, at a second call of [fit] on the same instance with
    [max_nodes = 4]: the first call builds five nodes, the second, which
    starts from the counters of the first, builds three. *)
Theorem refit_differs :
  exists t1 t2 r1 r2,
    fit 5 (tree None (Some 4) None) X4 y4_alt = Ok t1 /\
    fit 5 t1 X4 y4_alt = Ok t2 /\
    root t1 = Some r1 /\ root t2 = Some r2 /\
    count_nodes r1 = 5 /\ count_nodes r2 = 3 /\ r1 <> r2.
Proof.
  returns (fit 5 (tree None (Some 4) None) X4 y4_alt).
  returns (bind (fit 5 (tree None (Some 4) None) X4 y4_alt)
             (fun t1 => fit 5 t1 X4 y4_alt)).
  do 2 eexists. split; [evaluated|]. split; [evaluated|].
  split; [reflexivity|]. split; [reflexivity|].
  split; [evaluated|]. split; [evaluated|].
  intros E. apply (f_equal count_nodes) in E. vm_compute in E. discriminate E.
Qed.



(** C4, the claim as stated: with [max_depth = 1] the tree has two
    levels, and its children have depth 2. *)
Lemma depth_limit_exceeded :
  exists t' r nd,
    fit 4 (tree (Some 1) None None) X4 y4 = Ok t' /\
    root t' = Some r /\ height r = 2 /\
    nd ∈ nodes r /\ ~ depth nd <= 1.
Proof.
  returns (fit 4 (tree (Some 1) None None) X4 y4). do 2 eexists.
  split; [evaluated|]. split; [reflexivity|].
  split; [evaluated|]. split.
  - simpl. right. left.
  - simpl. lia.
Qed.

Lemma depth_limit_witness :
  0 < 1 /\
  max_depth (tree (Some 1) None None) = fin 1 /\
  exists t', fit 4 (tree (Some 1) None None) X4 y4 = Ok t' /\
  exists r, root t' = Some r /\ depth r = 1 /\
    forall nd, nd ∈ nodes r ->
      1 <= depth nd <= Z.max 1 2 /\
      forall c, left nd = Some c \/ right nd = Some c -> depth c = depth nd + 1.
Proof.
  split; [lia|]. split; [reflexivity|].
  returns (fit 4 (tree (Some 1) None None) X4 y4). split; [evaluated|].
  apply (depth_limit 4 (tree (Some 1) None None) X4 y4 _ 1);
    [lia | reflexivity | evaluated].
Defined.

Lemma midpoint_separating : separating.
Proof.
  intros Xc yc lo pv v H. simpl in H. injection H as _ H.
  destruct (boundary Xc yc) as [v'|]; [|done].
  destruct (both_sides v' Xc) eqn:Hb; [|done].
  injection H as <- <-.
  apply andb_true_iff in Hb as [Ht Hf].
  apply existsb_exists in Ht as (xt & Hxt & Dt).
  apply existsb_exists in Hf as (xf & Hxf & Df).
  split; [exists xt | exists xf]; split; try (by apply list_elem_of_In).
  - exact Dt.
  - simpl. by apply negb_true_iff in Df.
Qed.

Lemma fit_terminates_witness :
  separating /\
  validate_feature_matrix X4 = Ok X4 /\
  validate_target_vector y4_alt = Ok y4_alt /\
  check_consistent_length X4 y4_alt = Ok tt /\
  length X4 = length y4_alt /\
  forall fuel, (length X4 < fuel)%nat ->
    exists t', fit fuel (tree None None None) X4 y4_alt = Ok t'.
Proof.
  split; [exact midpoint_separating|].
  do 4 (split; [reflexivity|]).
  apply (fit_terminates (tree None None None) X4 y4_alt X4 y4_alt);
    [exact midpoint_separating | reflexivity | reflexivity | reflexivity
    | reflexivity].
Defined.

Lemma singleton_sealed_witness :
  separating /\
  exists t', fit 1 (tree None None None) [[5%Q]] [1] = Ok t' /\
  exists r, root t' = Some r /\
    (forall nd, nd ∈ nodes r -> size nd <= 1 -> sealed nd) /\
    (forall x l,
       validate_feature_matrix [[5%Q]] = Ok [x] ->
       validate_target_vector [1] = Ok [l] ->
       size r = 1 /\ sealed r /\ nodes r = [r] /\
       count_nodes r = 1 /\ count_leaves r = 1 /\
       num_nodes t' = num_nodes (tree None None None) + 1 /\
       num_leaf_nodes t' = num_leaf_nodes (tree None None None) + 1).
Proof.
  split; [exact midpoint_separating|].
  returns (fit 1 (tree None None None) [[5%Q]] [1]). split; [evaluated|].
  apply (singleton_sealed 1 (tree None None None) [[5%Q]] [1]);
    [exact midpoint_separating | evaluated].
Defined.

(** *** The further properties at concrete inputs *)

Lemma midpoint_leaf_from_data : leaf_from_data.
Proof. intros s1 s2 nd _ Ey. simpl. unfold first_label. by rewrite Ey. Qed.

Lemma tree_shape_witness :
  exists t', fit 5 (tree None None None) X4 y4_alt = Ok t' /\
  exists r, root t' = Some r /\
    forall nd, nd ∈ nodes r ->
      size nd = Z.of_nat (length (values nd)) /\
      ((is_leaf nd = true /\ left nd = None /\ right nd = None /\
        is_Some (prediction nd)) \/
       (is_leaf nd = false /\ prediction nd = None /\
        is_Some (loss nd) /\ is_Some (p nd) /\ is_Some (val nd) /\
        exists lc rc, left nd = Some lc /\ right nd = Some rc /\
          split nd = Some (size lc, size rc) /\ size nd = size lc + size rc)).
Proof.
  returns (fit 5 (tree None None None) X4 y4_alt). split; [evaluated|].
  apply (tree_shape 5 (tree None None None) X4 y4_alt). evaluated.
Defined.

Lemma predict_fitted_witness :
  exists t', fit 5 (tree None None None) X4 y4 = Ok t' /\
  validate_feature_matrix [[1#2]; [5#2]]%Q = Ok [[1#2]; [5#2]]%Q /\
  exists r preds,
    root t' = Some r /\ predict t' [[1#2]; [5#2]]%Q = Ok preds /\
    length preds = length [[1#2]; [5#2]]%Q /\
    Forall (fun pr => exists lf v,
              pr = Some v /\ lf ∈ leaves r /\ prediction lf = Some v) preds.
Proof.
  returns (fit 5 (tree None None None) X4 y4). split; [evaluated|].
  split; [reflexivity|].
  apply (predict_fitted 5 (tree None None None) X4 y4);
    [evaluated | reflexivity].
Defined.

(** The scenario of the specification: the two query rows fall left
    and right of the threshold 3/2. *)
Example predict_scenario :
  exists t', fit 5 (tree None None None) X4 y4 = Ok t' /\
    predict t' [[1#2]; [5#2]]%Q = Ok [Some 0; Some 1].
Proof. returns (fit 5 (tree None None None) X4 y4). split; evaluated. Qed.

Lemma predict_training_row_witness :
  exists t', fit 5 (tree None None None) X4 y4_alt = Ok t' /\
  validate_feature_matrix X4 = Ok X4 /\
  X4 !! 2%nat = Some [2%Q] /\
  exists lf v,
    predict_row t' [2%Q] = Ok (Some v) /\
    (exists r, root t' = Some r /\ lf ∈ leaves r) /\
    2%nat ∈ values lf /\ prediction lf = Some v.
Proof.
  returns (fit 5 (tree None None None) X4 y4_alt). split; [evaluated|].
  split; [reflexivity|]. split; [reflexivity|].
  apply (predict_training_row 5 (tree None None None) X4 y4_alt _ X4 2 [2%Q]);
    [evaluated | reflexivity | reflexivity].
Defined.

Lemma leaves_partition_witness :
  exists t', fit 5 (tree None None None) X4 y4_alt = Ok t' /\
  exists r n', root t' = Some r /\ n t' = Some n' /\
    concat (values <$> leaves r) ≡ₚ seq 0 n'.
Proof.
  returns (fit 5 (tree None None None) X4 y4_alt). split; [evaluated|].
  apply (leaves_partition 5 (tree None None None) X4 y4_alt). evaluated.
Defined.

Lemma nodes_and_leaves_witness :
  exists t', fit 5 (tree None None None) X4 y4_alt = Ok t' /\
  exists r, root t' = Some r /\
    count_nodes r = Z.of_nat (length (nodes r)) /\
    count_leaves r = Z.of_nat (length (leaves r)) /\
    count_nodes r = 2 * count_leaves r - 1 /\
    __len__ t' = __len__ (tree None None None) + count_nodes r /\
    num_leaf_nodes t' = num_leaf_nodes (tree None None None) + count_leaves r.
Proof.
  returns (fit 5 (tree None None None) X4 y4_alt). split; [evaluated|].
  apply (nodes_and_leaves 5 (tree None None None) X4 y4_alt). evaluated.
Defined.

Lemma depth_invariant_witness :
  exists t', fit 5 (tree None None None) X4 y4_alt = Ok t' /\
  exists r, root t' = Some r /\ depth r = 1 /\
    (forall nd, nd ∈ nodes r ->
       1 <= depth nd <= height r /\
       forall c, left nd = Some c \/ right nd = Some c -> depth c = depth nd + 1) /\
    (exists nd, nd ∈ nodes r /\ depth nd = height r).
Proof.
  returns (fit 5 (tree None None None) X4 y4_alt). split; [evaluated|].
  apply (depth_invariant 5 (tree None None None) X4 y4_alt). evaluated.
Defined.

Lemma sample_indices_in_range_witness :
  exists t', fit 5 (tree None None None) X4 y4_alt = Ok t' /\
  exists r n', root t' = Some r /\ n t' = Some n' /\
    values r = seq 0 n' /\ size r = Z.of_nat n' /\
    forall nd, nd ∈ nodes r ->
      sublist (values nd) (seq 0 n') /\ NoDup (values nd) /\
      forall i, i ∈ values nd -> (i < n')%nat.
Proof.
  returns (fit 5 (tree None None None) X4 y4_alt). split; [evaluated|].
  apply (sample_indices_in_range 5 (tree None None None) X4 y4_alt). evaluated.
Defined.

Lemma min_nodes_per_leaf_ignored_witness :
  leaf_from_data /\
  exists t1, fit 5 (__init__ None None None 1) X4 y4_alt = Ok t1 /\
  exists t2, fit 5 (__init__ None None None 3) X4 y4_alt = Ok t2 /\
    root t2 = root t1 /\ num_nodes t2 = num_nodes t1 /\
    num_leaf_nodes t2 = num_leaf_nodes t1.
Proof.
  split; [exact midpoint_leaf_from_data|].
  returns (fit 5 (__init__ None None None 1) X4 y4_alt). split; [evaluated|].
  apply (min_nodes_per_leaf_ignored 5 None None None 1 3 X4 y4_alt);
    [exact midpoint_leaf_from_data | evaluated].
Defined.

Lemma refit_unlimited_witness :
  leaf_from_data /\
  max_nodes (tree (Some 3) None None) = inf /\
  max_leaf_nodes (tree (Some 3) None None) = inf /\
  exists t1, fit 5 (tree (Some 3) None None) X4 y4_alt = Ok t1 /\
  exists t2, fit 5 t1 X4 y4_alt = Ok t2 /\ root t2 = root t1.
Proof.
  split; [exact midpoint_leaf_from_data|].
  split; [reflexivity|]. split; [reflexivity|].
  returns (fit 5 (tree (Some 3) None None) X4 y4_alt). split; [evaluated|].
  apply (refit_unlimited 5 (tree (Some 3) None None) X4 y4_alt);
    [exact midpoint_leaf_from_data | reflexivity | reflexivity | evaluated].
Defined.

Lemma node_limit_witness :
  0 < 1 /\
  max_nodes (tree None (Some 1) None) = fin 1 /\
  num_nodes (tree None (Some 1) None) = 0 /\
  exists t', fit 5 (tree None (Some 1) None) X4 y4_alt = Ok t' /\
  exists r, root t' = Some r /\
    count_nodes r <= 1 + 2 * (height r - 1) /\
    __len__ t' = count_nodes r.
Proof.
  split; [lia|]. split; [reflexivity|]. split; [reflexivity|].
  returns (fit 5 (tree None (Some 1) None) X4 y4_alt). split; [evaluated|].
  apply (node_limit 5 (tree None (Some 1) None) X4 y4_alt _ 1);
    [lia | reflexivity | reflexivity | evaluated].
Defined.

(** With [max_nodes = 1] the tree has three nodes: the bound of
    [node_limit] is attained. *)
Example node_limit_attained :
  exists t' r, fit 5 (tree None (Some 1) None) X4 y4_alt = Ok t' /\
    root t' = Some r /\ count_nodes r = 3 /\ height r = 2.
Proof.
  returns (fit 5 (tree None (Some 1) None) X4 y4_alt). eexists.
  split; [evaluated|]. split; [reflexivity|]. split; evaluated.
Qed.

Lemma fit_fails_only_by_recursion_witness :
  validate_feature_matrix X4 = Ok X4 /\
  validate_target_vector y4_alt = Ok y4_alt /\
  check_consistent_length X4 y4_alt = Ok tt /\
  (length X4 <= length y4_alt)%nat /\
  ((exists t', fit 2 (tree None None None) X4 y4_alt = Ok t') \/
   fit 2 (tree None None None) X4 y4_alt = Raise RecursionError).
Proof.
  do 3 (split; [reflexivity|]). split; [simpl; lia|].
  apply (fit_fails_only_by_recursion 2 (tree None None None) X4 y4_alt X4 y4_alt);
    [reflexivity | reflexivity | reflexivity | simpl; lia].
Defined.

Lemma root_follows_selector_witness :
  exists t', fit 5 (tree (Some 1) (Some 1) (Some 1)) X4 y4 = Ok t' /\
  validate_feature_matrix X4 = Ok X4 /\
  validate_target_vector y4 = Ok y4 /\
  length X4 = length y4 /\
  exists r, root t' = Some r /\
    (snd (_best_split X4 y4) = None ->
       is_leaf r = true /\ nodes r = [r] /\ is_Some (prediction r)) /\
    (forall lo pv v, _best_split X4 y4 = (lo, Some (pv, v)) ->
       is_leaf r = false /\ type r = Some "root" /\
       loss r = Some lo /\ p r = Some pv /\ val r = Some v /\
       exists lc rc, left r = Some lc /\ right r = Some rc).
Proof.
  returns (fit 5 (tree (Some 1) (Some 1) (Some 1)) X4 y4). split; [evaluated|].
  do 3 (split; [reflexivity|]).
  apply (root_follows_selector 5 (tree (Some 1) (Some 1) (Some 1)) X4 y4 _ X4 y4);
    [evaluated | reflexivity | reflexivity | reflexivity].
Defined.

Lemma leaves_final_witness :
  max_depth (tree None None None) = inf /\
  max_nodes (tree None None None) = inf /\
  max_leaf_nodes (tree None None None) = inf /\
  exists t', fit 5 (tree None None None) X4 y4_alt = Ok t' /\
  exists r, root t' = Some r /\
    forall lf, lf ∈ leaves r ->
      no_split_found t' lf \/ _is_pure t' lf = Ok true \/ size lf <= 1.
Proof.
  do 3 (split; [reflexivity|]).
  returns (fit 5 (tree None None None) X4 y4_alt). split; [evaluated|].
  apply (leaves_final 5 (tree None None None) X4 y4_alt);
    [reflexivity | reflexivity | reflexivity | evaluated].
Defined.

Lemma rules_recorded_witness :
  exists t', fit 5 (tree None None None) X4 y4_alt = Ok t' /\
  exists r, root t' = Some r /\
    forall nd, nd ∈ nodes r -> is_leaf nd = false ->
      exists Xc yc lo pv v,
        take (X t') (values nd) = Ok Xc /\
        take (y t') (values nd) = Ok yc /\
        _best_split Xc yc = (lo, Some (pv, v)) /\
        loss nd = Some lo /\ p nd = Some pv /\ val nd = Some v.
Proof.
  returns (fit 5 (tree None None None) X4 y4_alt). split; [evaluated|].
  apply (rules_recorded 5 (tree None None None) X4 y4_alt). evaluated.
Defined.

Lemma split_children_checked_witness :
  exists t', fit 5 (tree None None None) X4 y4_alt = Ok t' /\
  exists r, root t' = Some r /\
    forall nd c, nd ∈ nodes r -> left nd = Some c \/ right nd = Some c ->
      is_leaf c = false ->
      _is_pure t' c = Ok false /\ 1 < size c /\
      lt_limit (depth c) (max_depth t') = true.
Proof.
  returns (fit 5 (tree None None None) X4 y4_alt). split; [evaluated|].
  apply (split_children_checked 5 (tree None None None) X4 y4_alt). evaluated.
Defined.

Lemma leaf_predictions_witness :
  leaf_from_data /\
  exists t', fit 5 (tree None None None) X4 y4_alt = Ok t' /\
  exists r, root t' = Some r /\
    forall lf, lf ∈ leaves r ->
      prediction lf = Some (_evaluate_leaf t' (without_prediction lf)).
Proof.
  split; [exact midpoint_leaf_from_data|].
  returns (fit 5 (tree None None None) X4 y4_alt). split; [evaluated|].
  apply (leaf_predictions 5 (tree None None None) X4 y4_alt);
    [exact midpoint_leaf_from_data | evaluated].
Defined.

Lemma fit_keeps_configuration_witness :
  exists t', fit 5 (tree (Some 3) (Some 9) None) X4 y4_alt = Ok t' /\
  exists Xv yv,
    validate_feature_matrix X4 = Ok Xv /\ validate_target_vector y4_alt = Ok yv /\
    X t' = Some Xv /\ y t' = Some yv /\ n t' = Some (length Xv) /\
    max_depth t' = max_depth (tree (Some 3) (Some 9) None) /\
    max_nodes t' = max_nodes (tree (Some 3) (Some 9) None) /\
    max_leaf_nodes t' = max_leaf_nodes (tree (Some 3) (Some 9) None) /\
    min_nodes_per_leaf t' = min_nodes_per_leaf (tree (Some 3) (Some 9) None).
Proof.
  returns (fit 5 (tree (Some 3) (Some 9) None) X4 y4_alt). split; [evaluated|].
  apply (fit_keeps_configuration 5 (tree (Some 3) (Some 9) None) X4 y4_alt).
  evaluated.
Defined.

Lemma dump_lists_every_node_witness :
  0 <= num_nodes (tree None None None) /\
  exists t', fit 5 (tree None None None) X4 y4 = Ok t' /\
  exists r order,
    root t' = Some r /\ order ≡ₚ nodes r /\
    StronglySorted shallower order /\
    __str__ size_line t' = Ok (render size_line order).
Proof.
  split; [reflexivity|].
  returns (fit 5 (tree None None None) X4 y4). split; [evaluated|].
  apply (dump_lists_every_node size_line 5 (tree None None None) X4 y4);
    [reflexivity | evaluated].
Defined.

(** The dump before any [fit], and the dump of the three-node tree. *)
Example dump_examples :
  __str__ size_line (tree None None None) = Ok "Decision Tree is not fitted" /\
  exists t', fit 5 (tree None None None) X4 y4 = Ok t' /\
    __str__ size_line t' =
    Ok (newline +:+ "Current Depth: 1===============" +:+ newline
        +:+ "size 4" +:+ newline
        +:+ newline +:+ "Current Depth: 2===============" +:+ newline
        +:+ "size 2" +:+ newline +:+ "size 2" +:+ newline).
Proof.
  split; [reflexivity|].
  returns (fit 5 (tree None None None) X4 y4). split; evaluated.
Qed.

End AtMidpoint.

Section AtEager.

#[local] Existing Instance eager.

(** Two samples with the same feature and different labels: the rule
    sends both left, so the left child is the node again, one level
    deeper. *)
Lemma split_same_rows fuel : forall n0 rt nn nl d ty,
  _split fuel (mkTree (Some X2) (Some y2) n0 rt nn nl inf inf inf 1)
    (new_Node 2 [0%nat; 1%nat] d ty) = Raise RecursionError.
Proof.
  induction fuel as [|fuel IH]; intros n0 rt nn nl d ty; [reflexivity|].
  change (_split (S fuel)) with (_split_body (_split fuel)).
  lazy -[_split].
  match goal with
  | |- context [@_split _ _ _ _ _ ?C fuel ?s ?c] =>
      assert (@_split _ _ _ _ _ C fuel s c = Raise RecursionError) as E
        by apply IH;
      rewrite E
  end.
  reflexivity.
Qed.

(** The builder itself does not test that a rule leaves a sample on
    each side: with a selector that returns a rule on two samples with
    the same feature, and no limit configured, [fit] does not return
    whatever the recursion depth allowed. *)
Lemma fit_never_returns :
  exists X0 y0, X0 = [[0%Q]; [0%Q]] /\ y0 = [0; 1] /\
    forall fuel, fit fuel (tree None None None) X0 y0 = Raise RecursionError.
Proof.
  exists X2, y2. split; [reflexivity|]. split; [reflexivity|].
  intros fuel. rewrite fit_unfold.
  change (validate_feature_matrix X2) with (Ok X2).
  change (validate_target_vector y2) with (Ok y2).
  change (check_consistent_length X2 y2) with (Ok tt).
  unfold bind at 1 2 3.
  replace (_split fuel (start (tree None None None) X2 y2) (new_root (length X2)))
    with (@Raise (DecisionTree frow Z Q Q Z * Node Q Q Z) RecursionError);
    [reflexivity|].
  symmetry. apply split_same_rows.
Qed.

(** Nor does it test the size of the root: with a selector that
    returns a rule on a single sample the root of that sample is split;
    the tree has three nodes. *)
Lemma singleton_root_split :
  exists t' r,
    fit 2 (tree None None None) [[5%Q]] [1] = Ok t' /\
    root t' = Some r /\ size r = 1 /\ is_leaf r = false /\
    count_nodes r = 3 /\ count_leaves r = 2.
Proof.
  returns (fit 2 (tree None None None) [[5%Q]] [1]). eexists.
  split; [evaluated|]. split; [reflexivity|]. repeat split; evaluated.
Qed.

Lemma empty_child_witness :
  exists t' r lc rc,
    fit 2 (tree None None None) [[5%Q]] [1] = Ok t' /\
    root t' = Some r /\ left r = Some lc /\ right r = Some rc /\
    (forall i, i ∈ values r -> side t' r i = Some false) /\
    values rc = [] /\ size rc = 0 /\ sealed rc /\ values lc = values r.
Proof.
  let r := eval vm_compute in (fit 2 (tree None None None) [[5%Q]] [1]) in
  lazymatch r with
  | Ok ?t =>
      assert (fit 2 (tree None None None) [[5%Q]] [1] = Ok t) as Hfit
        by evaluated;
      destruct (empty_child 2 (tree None None None) [[5%Q]] [1] t Hfit)
        as (r0 & Hr & H);
      exists t
  end.
  injection Hr as <-.
  do 3 eexists. split; [exact Hfit|]. split; [reflexivity|].
  split; [reflexivity|]. split; [reflexivity|].
  assert (forall i : nat, i ∈ [0%nat] -> i = 0%nat) as Hone
    by (intros i Hi; by apply list_elem_of_singleton in Hi).
  split; [intros i Hi; rewrite (Hone i Hi); evaluated|].
  eapply (proj1 (H _ _ _ (nodes_self _) eq_refl eq_refl)).
  intros i Hi. rewrite (Hone i Hi). evaluated.
Defined.

(** With a maximum depth the same selector does return on the two
    samples of [fit_never_returns]. *)
Example fit_returns_with_max_depth :
  exists t', fit 3 (tree (Some 3) None None) X2 y2 = Ok t'.
Proof.
  apply (fit_returns 3 (tree (Some 3) None None) X2 y2 X2 y2);
    try reflexivity.
  right. exists 3. repeat split; [lia|done].
Qed.

End AtEager.
